(** * Price resolution pipeline of [scripts/update_data.py]

    A shallow embedding of the pricing half of the script: the resilient
    fetcher [http_json], the slug deriver ([guess_wm_url_name],
    [wm_url_candidates]), the price extractor ([_median_from_stats_section]
    and the second half of [wm_price_from_statistics]), the batch resolver
    [build_prices_from_wm_statistics] and the final threshold test of [main].

    Conventions.
    - A Python [str] is a Rocq [string]; a character is read as the code
      point of the same number (U+0000 .. U+00FF).
    - A Python [float] is a binary64 value, [spec_float] with [prec = 53] and
      [emax = 1024].
    - Whatever [json.loads] can return is a [pyval].
    - Code that can raise returns a [result]; code that talks to the network
      or sleeps threads a [world].
    - Output on the console, the request headers and the time limit of a
      request have no part in what is proved and are left out. *)

From Stdlib Require Import ZArith QArith Lia List Ascii String.
From Stdlib Require Import Floats.SpecFloat.
From stdpp Require Import base option list gmap strings pretty sorting.

Local Open Scope string_scope.
Local Open Scope Z_scope.

#[local] Set Warnings "-clear-no-such-hyp".

(** ** Python values, exceptions, results *)

Module Py.

#[local] Set Warnings "-register-all".

Inductive pyval : Type :=
| PNone
| PBool (b : bool)
| PInt (n : Z)
| PFloat (x : spec_float)
| PStr (s : string)
| PList (l : list pyval)
| PDict (d : list (string * pyval)).

(** The exception classes the script can meet. All of them derive from
    [Exception]; only [HTTPError] is told apart by the handlers. *)
Inductive exn : Type :=
| HTTPError (code : Z)
| URLError (reason : string)
| TimeoutError
| ConnectionResetError
| JSONDecodeError
| AttributeError
| TypeError
| ValueError
| OverflowError
| IndexError
| KeyError
| RuntimeError (msg : string).

Inductive result (A : Type) : Type :=
| Ok (a : A)
| Raise (e : exn).
Arguments Ok {A} a.
Arguments Raise {A} e.

Definition rbind {A B} (r : result A) (k : A -> result B) : result B :=
  match r with
  | Ok a => k a
  | Raise e => Raise e
  end.

(** [try: body  except Exception: handler] *)
Definition try_except {A} (body : result A) (handler : exn -> result A) : result A :=
  match body with
  | Ok a => Ok a
  | Raise e => handler e
  end.

Definition isinstance_dict (v : pyval) : bool :=
  match v with PDict _ => true | _ => false end.

Definition isinstance_list (v : pyval) : bool :=
  match v with PList _ => true | _ => false end.

Definition is_None (v : pyval) : bool :=
  match v with PNone => true | _ => false end.

Definition float_is_zero (x : spec_float) : bool :=
  match x with S754_zero _ => true | _ => false end.

(** Truth value testing, as [bool(v)]. *)
Definition truthy (v : pyval) : bool :=
  match v with
  | PNone => false
  | PBool b => b
  | PInt n => negb (n =? 0)
  | PFloat x => negb (float_is_zero x)
  | PStr s => negb (String.eqb s "")
  | PList l => match l with [] => false | _ => true end
  | PDict d => match d with [] => false | _ => true end
  end.

(** [a or b] *)
Definition py_or (a b : pyval) : pyval := if truthy a then a else b.

(** A dict is kept as the list of its items; a lookup takes the first item
    with the key. *)
Fixpoint assoc (d : list (string * pyval)) (k : string) : option pyval :=
  match d with
  | [] => None
  | (k', v) :: d' => if String.eqb k' k then Some v else assoc d' k
  end.

(** [v.get(k, default)]; only a dict has the method. *)
Definition get_default (v : pyval) (k : string) (default : pyval) : result pyval :=
  match v with
  | PDict d => Ok (from_option id default (assoc d k))
  | _ => Raise AttributeError
  end.

(** [v.get(k)] *)
Definition get (v : pyval) (k : string) : result pyval := get_default v k PNone.

(** [v[-1]] *)
Definition index_last (v : pyval) : result pyval :=
  match v with
  | PList l => match last l with
               | Some x => Ok x
               | None => Raise IndexError
               end
  | PStr s => match String.rev s with
              | String c _ => Ok (PStr (String c ""))
              | EmptyString => Raise IndexError
              end
  | PDict _ => Raise KeyError
  | _ => Raise TypeError
  end.

End Py.
Export Py.

Declare Scope result_scope.
Delimit Scope result_scope with result.
Notation "x <- c ;; k" := (rbind c (fun x => k))
  (at level 100, c at next level, right associativity) : result_scope.

(** ** Floats: conversion and rounding *)

Module PyFloat.

Definition prec : Z := 53.
Definition emax : Z := 1024.

Definition float_of_Z (n : Z) : spec_float := binary_normalize prec emax n 0 false.

(** [float(n)] for an int: rounded to binary64, [OverflowError] when the
    int is too large. *)
Definition float_of_int (n : Z) : result spec_float :=
  match float_of_Z n with
  | S754_infinity _ => Raise OverflowError
  | x => Ok x
  end.

(** C's [round] on a non-negative [m * 2^e]: nearest integer, halves away
    from zero. *)
Definition c_round (m e : Z) : Z :=
  if 0 <=? e then m * 2 ^ e
  else (2 * m + 2 ^ (- e)) / (2 * 2 ^ (- e)).

(** [fabs(x - rounded) == 0.5] for [x = m * 2^e]. *)
Definition half_away (m e rounded : Z) : bool :=
  if 0 <=? e then false
  else Z.abs (2 * m - 2 * rounded * 2 ^ (- e)) =? 2 ^ (- e).

(** [float.__round__] without [ndigits], on the magnitude:
    [rounded = round(x); if (fabs(x-rounded) == 0.5) rounded = 2.0*round(x/2.0);] *)
Definition round_mag (m e : Z) : Z :=
  let rounded := c_round m e in
  if half_away m e rounded then 2 * c_round m (e - 1) else rounded.

(** [round(x)] for a float: an int, [ValueError] on NaN, [OverflowError] on
    an infinity. *)
Definition py_round (x : spec_float) : result Z :=
  match x with
  | S754_zero _ => Ok 0
  | S754_infinity _ => Raise OverflowError
  | S754_nan => Raise ValueError
  | S754_finite s m e => Ok (cond_Zopp s (round_mag (Zpos m) e))
  end.

End PyFloat.
Export PyFloat.

(** ** [float(s)] for a string

    [float] accepts, between optional white space, an optional sign and
    then [inf], [infinity] or [nan] in any case, or a decimal number
    ([12], [12.], [.5], [1e-3]), with single underscores between digits. The
    value is the nearest binary64, ties to even; a value too large becomes
    an infinity. Anything else is a [ValueError]. *)

Module FloatParse.

Definition code (c : ascii) : N := N_of_ascii c.

Definition is_digit (c : ascii) : bool := ((48 <=? code c) && (code c <=? 57))%N.

Definition digit_val (c : ascii) : Z := Z.of_N (code c) - 48.

(** [Py_ISSPACE]: tab, line feed, vertical tab, form feed, carriage return,
    space. *)
Definition c_isspace (c : ascii) : bool :=
  ((9 <=? code c) && (code c <=? 13) || (code c =? 32))%N.

(** Before parsing, a white space character outside ASCII (U+0085, U+00A0)
    is turned into a space; every other character from U+007F on is
    turned into [?], which no number contains. *)
Definition to_ascii_space (c : ascii) : ascii :=
  if ((code c =? 133) || (code c =? 160))%N then " "%char
  else if (127 <=? code c)%N then "?"%char
  else c.

Fixpoint map_string (f : ascii -> ascii) (s : string) : string :=
  match s with
  | EmptyString => EmptyString
  | String c s' => String (f c) (map_string f s')
  end.

(** Underscores: allowed only between two digits; they are removed.
    [prev] is the character before, [None] at the start. *)
Fixpoint strip_underscores (prev : option ascii) (s : string) : option string :=
  match s with
  | EmptyString =>
      match prev with
      | Some "_"%char => None
      | _ => Some EmptyString
      end
  | String c s' =>
      if Ascii.eqb c "_" then
        match prev with
        | Some p => if is_digit p then strip_underscores (Some c) s' else None
        | None => None
        end
      else
        match prev with
        | Some "_"%char =>
            if is_digit c then String c <$> strip_underscores (Some c) s' else None
        | _ => String c <$> strip_underscores (Some c) s'
        end
  end.

Fixpoint lstrip (p : ascii -> bool) (s : string) : string :=
  match s with
  | String c s' => if p c then lstrip p s' else s
  | EmptyString => EmptyString
  end.

(** A run of digits: the number read so far, how many digits, the rest. *)
Fixpoint digits (s : string) (acc : Z) (n : nat) : Z * nat * string :=
  match s with
  | String c s' =>
      if is_digit c then digits s' (10 * acc + digit_val c) (S n) else (acc, n, s)
  | EmptyString => (acc, n, s)
  end.

Definition sign (s : string) : bool * string :=
  match s with
  | String "-" s' => (true, s')
  | String "+" s' => (false, s')
  | _ => (false, s)
  end.

Definition ascii_lower (c : ascii) : ascii :=
  if ((65 <=? code c) && (code c <=? 90))%N then ascii_of_N (code c + 32) else c.

(** [s] starts with [word], in any case: the rest of [s]. *)
Fixpoint skip_word (word s : string) : option string :=
  match word, s with
  | EmptyString, _ => Some s
  | String w word', String c s' =>
      if Ascii.eqb (ascii_lower c) w then skip_word word' s' else None
  | String _ _, EmptyString => None
  end.

(** The nearest binary64 to [(-1)^neg * d * 10^e10], for [d >= 0]. *)
Definition float_of_decimal (neg : bool) (d e10 : Z) : spec_float :=
  if d =? 0 then S754_zero neg
  else if 0 <=? e10 then
    binary_normalize prec emax (cond_Zopp neg (d * 10 ^ e10)) 0 neg
  else
    let '(q, e', l) := SFdiv_core_binary prec emax d 0 (10 ^ (- e10)) 0 in
    binary_round_aux prec emax neg q e' l.

(** [_Py_parse_inf_or_nan]: the value and the rest. *)
Definition parse_inf_or_nan (s : string) : option (spec_float * string) :=
  let '(neg, s1) := sign s in
  match skip_word "inf" s1 with
  | Some s2 =>
      match skip_word "inity" s2 with
      | Some s3 => Some (S754_infinity neg, s3)
      | None => Some (S754_infinity neg, s2)
      end
  | None =>
      match skip_word "nan" s1 with
      | Some s2 => Some (S754_nan, s2)
      | None => None
      end
  end.

(** The exponent part, when there is a complete one: its value and the
    rest. *)
Definition parse_exponent (s : string) : option (Z * string) :=
  match s with
  | String c s1 =>
      if Ascii.eqb (ascii_lower c) "e" then
        let '(eneg, s2) := sign s1 in
        let '(ev, ne, s3) := digits s2 0 0 in
        match ne with
        | O => None
        | S _ => Some (cond_Zopp eneg ev, s3)
        end
      else None
  | EmptyString => None
  end.

(** [strtod] on a decimal number: the value and the rest; [None] when
    there is no digit. *)
Definition parse_decimal (s : string) : option (spec_float * string) :=
  let '(neg, s1) := sign s in
  let '(ip, ni, s2) := digits s1 0 0 in
  let '(fp, nf, s3) :=
    match s2 with
    | String "." s2' => digits s2' ip 0
    | _ => (ip, O, s2)
    end in
  match (ni + nf)%nat with
  | O => None
  | S _ =>
      let '(ex, s4) := from_option id (0, s3) (parse_exponent s3) in
      Some (float_of_decimal neg fp (ex - Z.of_nat nf), s4)
  end.

Definition strtod (s : string) : option (spec_float * string) :=
  match parse_inf_or_nan s with
  | Some r => Some r
  | None => parse_decimal s
  end.

Definition float_of_str (s : string) : result spec_float :=
  match strip_underscores None (map_string to_ascii_space s) with
  | None => Raise ValueError
  | Some s1 =>
      match strtod (lstrip c_isspace s1) with
      | Some (x, rest) =>
          match lstrip c_isspace rest with
          | EmptyString => Ok x
          | String _ _ => Raise ValueError
          end
      | None => Raise ValueError
      end
  end.

End FloatParse.

(** [float(v)] *)
Definition py_float (v : pyval) : result spec_float :=
  match v with
  | PBool b => Ok (if b then float_of_Z 1 else float_of_Z 0)
  | PInt n => float_of_int n
  | PFloat x => Ok x
  | PStr s => FloatParse.float_of_str s
  | PNone | PList _ | PDict _ => Raise TypeError
  end.

(** [int(round(float(v)))]; [int] of an int is the int. *)
Definition int_round_float (v : pyval) : result Z :=
  (x <- py_float v ;; r <- py_round x ;; Ok r)%result.

(** ** String methods used by the slug deriver *)

Module PyStr.

Import FloatParse.

(** [str.isspace] on one character, for code points below 256. *)
Definition isspace (c : ascii) : bool :=
  ((9 <=? code c) && (code c <=? 13) || (28 <=? code c) && (code c <=? 32)
   || (code c =? 133) || (code c =? 160))%N.

(** [str.lower] on one character, for code points below 256: [A-Z], and
    the capital letters U+00C0 .. U+00DE without the sign U+00D7. *)
Definition lower_char (c : ascii) : ascii :=
  if ((65 <=? code c) && (code c <=? 90)
      || (192 <=? code c) && (code c <=? 222) && negb (code c =? 215))%N
  then ascii_of_N (code c + 32) else c.

Definition lower (s : string) : string := map_string lower_char s.

Definition rstrip (p : ascii -> bool) (s : string) : string :=
  String.rev (lstrip p (String.rev s)).

(** [s.strip()] and [s.strip(chars)], with the set of characters as a
    predicate. *)
Definition strip (p : ascii -> bool) (s : string) : string := rstrip p (lstrip p s).

(** [s.replace(old, new)] for a non-empty [old]: the occurrences are taken
    from the left and do not overlap. [skip] counts the characters of an
    occurrence still to drop. *)
Fixpoint replace_go (old new s : string) (skip : nat) : string :=
  match s with
  | EmptyString => EmptyString
  | String c s' =>
      match skip with
      | S k => replace_go old new s' k
      | O =>
          if String.prefix old s
          then new +:+ replace_go old new s' (String.length old - 1)
          else String c (replace_go old new s' 0)
      end
  end.

Definition replace (old new s : string) : string := replace_go old new s 0.

(** [re.sub(r"[C]+", rep, s)] for a character class [C]: every maximal run
    of characters of the class becomes one [rep]. *)
Fixpoint sub_runs (cls : ascii -> bool) (rep s : string) (in_run : bool) : string :=
  match s with
  | EmptyString => EmptyString
  | String c s' =>
      if cls c then
        if in_run then sub_runs cls rep s' true
        else rep +:+ sub_runs cls rep s' true
      else String c (sub_runs cls rep s' false)
  end.

Definition re_sub_runs (cls : ascii -> bool) (rep s : string) : string :=
  sub_runs cls rep s false.

(** [s.endswith(suffix)] *)
Definition endswith (s suffix : string) : bool :=
  String.prefix (String.rev suffix) (String.rev s).

(** [sub in s] *)
Fixpoint contains (sub s : string) : bool :=
  String.prefix sub s ||
  match s with
  | EmptyString => false
  | String _ s' => contains sub s'
  end.

(** [s[:-n]] for [n > 0] *)
Definition drop_last (n : nat) (s : string) : string :=
  String.substring 0 (String.length s - n) s.

(** [urllib.parse.quote(s)]: letters, digits and [_.-~/] stay, every other
    character becomes the [%XX] of each byte of its UTF-8 encoding. *)
Definition is_alpha (c : ascii) : bool :=
  ((65 <=? code c) && (code c <=? 90) || (97 <=? code c) && (code c <=? 122))%N.

Definition quote_safe (c : ascii) : bool :=
  is_alpha c || is_digit c
  || ((code c =? 95) || (code c =? 46) || (code c =? 45) || (code c =? 126)
      || (code c =? 47))%N.

Definition hex_digit (n : N) : ascii :=
  (if n <? 10 then ascii_of_N (48 + n) else ascii_of_N (55 + n))%N.

Definition percent (b : N) : string :=
  String "%" (String (hex_digit (b / 16)) (String (hex_digit (b mod 16)) "")).

Definition utf8 (c : ascii) : list N :=
  (if code c <? 128 then [code c]
   else [192 + code c / 64; 128 + code c mod 64])%N.

Fixpoint quote (s : string) : string :=
  match s with
  | EmptyString => EmptyString
  | String c s' =>
      (if quote_safe c then String c "" else foldr (fun b r => percent b +:+ r) "" (utf8 c))
      +:+ quote s'
  end.

End PyStr.

(** ** Slug deriver *)

(** [[^a-z0-9]] *)
Definition not_slug_char (c : ascii) : bool :=
  negb (((97 <=? FloatParse.code c) && (FloatParse.code c <=? 122))%N
        || FloatParse.is_digit c).

Definition is_underscore (c : ascii) : bool := Ascii.eqb c "_".

Definition guess_wm_url_name (item_name : string) : string :=
  let s := PyStr.lower (PyStr.strip PyStr.isspace item_name) in
  let s := PyStr.replace "&" "and" s in
  let s := PyStr.re_sub_runs not_slug_char "_" s in
  let s := PyStr.strip is_underscore (PyStr.re_sub_runs is_underscore "_" s) in
  s.

(** Manual overrides: the table is empty. *)
Definition WM_URL_OVERRIDES : gmap string string := ∅.

(** The loop that removes duplicates and empty candidates, keeping the
    order. *)
Fixpoint dedupe (cands : list string) (seen : gset string) : list string :=
  match cands with
  | [] => []
  | c :: cands' =>
      if negb (String.eqb c "") && negb (bool_decide (c ∈ seen))
      then c :: dedupe cands' ({[c]} ∪ seen)
      else dedupe cands' seen
  end.

Definition wm_url_candidates (item_name : string) : list string :=
  let base :=
    match WM_URL_OVERRIDES !! item_name with
    | Some o => if String.eqb o "" then guess_wm_url_name item_name else o
    | None => guess_wm_url_name item_name
    end in
  let cands := [base] in
  let cands :=
    if PyStr.endswith base "_receiver"
    then (cands ++ [PyStr.drop_last (String.length "_receiver") base +:+ "_reciever"])%list
    else cands in
  let cands :=
    if PyStr.contains "_receiver_" base
    then (cands ++ [PyStr.replace "_receiver_" "_reciever_" base])%list
    else cands in
  dedupe cands ∅.

(** ** The world: network and clock

    [urlopen], [read] and [json.loads] together either return the decoded
    document or raise. What the [k]-th request of a run, for a given URL,
    does is fixed by [net]; the requests made and the sleeps taken are
    recorded in order. *)

Inductive response : Type :=
| Returns (document : pyval)
| Fails (e : exn).

Inductive file_data : Type :=
| PricesJson (prices : gmap string Z)
| NamesText (names : list string)
| NamesJson (names : list string).

Inductive event : Type :=
| Request (url : string)
| Sleep (seconds : Q)
| WriteFile (path : string) (data : file_data).

Record world : Type := mkWorld {
  net : nat -> string -> response;
  sent : nat;
  trace : list event
}.

Definition M (A : Type) : Type := world -> result A * world.

Definition log (ev : event) (w : world) : world :=
  mkWorld (net w) (sent w) (trace w ++ [ev]).

(** [urllib.request.urlopen(req, timeout=timeout)], [r.read().decode(...)]
    and [json.loads(raw)] *)
Definition urlopen_json (url : string) (w : world) : response * world :=
  (net w (sent w) url,
   mkWorld (net w) (S (sent w)) (trace w ++ [Request url])).

(** [time.sleep(seconds)] *)
Definition sleep (seconds : Q) (w : world) : world := log (Sleep seconds) w.

(** ** Resilient fetcher *)

Definition transient_codes : list Z := [429; 500; 502; 503; 504].

(** [e.code in (429, 500, 502, 503, 504)] *)
Definition is_transient (code : Z) : bool := bool_decide (code ∈ transient_codes).

(** [range(n)] *)
Definition range (n : Z) : list Z := Z.of_nat <$> seq 0 (Z.to_nat n).

(** [1.5 ** i], for [i >= 0]; the power is exact in binary64 up to
    [i = 33]. *)
Definition backoff (i : Z) : Q := Qpower (3 # 2) i.

(** The body of [for i in range(attempts)], and what follows the loop. *)
Fixpoint http_json_loop (url : string) (indices : list Z) (last_err : option exn)
    (w : world) : result pyval * world :=
  match indices with
  | [] =>
      match last_err with
      | Some e => (Raise e, w)
      | None => (Raise (RuntimeError "http_json failed with unknown error"), w)
      end
  | i :: indices' =>
      let '(r, w1) := urlopen_json url w in
      match r with
      | Returns document => (Ok document, w1)
      | Fails (HTTPError code) =>
          if is_transient code
          then http_json_loop url indices' (Some (HTTPError code)) (sleep (backoff i) w1)
          else (Raise (HTTPError code), w1)
      | Fails e =>
          http_json_loop url indices' (Some e) (sleep (backoff i) w1)
      end
  end.

Definition http_json (url : string) (attempts : Z) : M pyval :=
  http_json_loop url (range attempts) None.

Definition default_attempts : Z := 4.

(** ** Price extractor *)

Definition _median_from_stats_section (stats_section : pyval) (window_key : string)
    : result (option Z) :=
  if negb (isinstance_dict stats_section) then Ok None else
  (v <- get stats_section window_key ;;
   let arr := py_or v (PList []) in
   if negb (isinstance_list arr) || negb (truthy arr) then Ok None else
   last <- index_last arr ;;
   if negb (isinstance_dict last) then Ok None else
   med <- get last "median" ;;
   if is_None med then Ok None else
   try_except (n <- int_round_float med ;; Ok (Some n)) (fun _ => Ok None))%result.

(** [v = ...; if v is not None: return v], followed by the rest. *)
Definition return_if_not_None (c : result (option Z)) (rest : result (option Z))
    : result (option Z) :=
  (v <- c ;;
   match v with
   | Some _ => Ok v
   | None => rest
   end)%result.

(** The second [try] block of [wm_price_from_statistics]: from the decoded
    document to a price. *)
Definition extract_price (payload : pyval) : result (option Z) :=
  try_except
    (p <- get_default payload "payload" (PDict []) ;;
     closed <- get p "statistics_closed" ;;
     open_ <- get p "statistics_open" ;;
     return_if_not_None (_median_from_stats_section closed "90days")
       (return_if_not_None (_median_from_stats_section open_ "90days")
          (return_if_not_None (_median_from_stats_section closed "48hours")
             (return_if_not_None (_median_from_stats_section open_ "48hours")
                (Ok None)))))%result
    (fun _ => Ok None).

Definition WM_BASE : string := "https://api.warframe.market/v1".

(** [WM_ITEM_STATS.format(url_name=urllib.parse.quote(url_name))] *)
Definition WM_ITEM_STATS (url_name : string) : string :=
  WM_BASE +:+ "/items/" +:+ PyStr.quote url_name +:+ "/statistics".

Definition is_not_found (code : Z) : bool := bool_decide (code ∈ [404; 403]).

Definition wm_price_from_statistics (url_name : string) : M (option Z) :=
  fun w =>
    let url := WM_ITEM_STATS url_name in
    match http_json url default_attempts w with
    | (Raise (HTTPError code), w1) =>
        if is_not_found code then (Ok None, w1) else (Raise (HTTPError code), w1)
    | (Raise e, w1) => (Raise e, w1)
    | (Ok payload, w1) => (extract_price payload, w1)
    end.

(** ** Batch resolver *)

Record reward : Type := mkReward {
  item : string;
  chance : option spec_float;
  type_ : string
}.

Record relic : Type := mkRelic {
  tier : string;
  name : string;
  vaulted : bool;
  rewards : list reward
}.

(** [sorted(s)] for a set of strings. *)
Definition sorted (s : gset string) : list string := merge_sort String.le (elements s).

Definition unique_reward_items (relics_min : list relic) : list string :=
  let s :=
    foldl (fun s r =>
      foldl (fun s rw =>
        let it := item rw in
        if negb (String.eqb it "") then {[it]} ∪ s else s) s (rewards r))
      (∅ : gset string) relics_min in
  sorted s.

Definition SLEEP_BETWEEN_WM_CALLS : Q := 2 # 5.

(** The inner loop over the candidates of one item: the value of [v] when
    the loop is left. *)
Fixpoint try_candidates (candidates : list string) : M (option Z) :=
  fun w =>
    match candidates with
    | [] => (Ok None, w)
    | url_name :: candidates' =>
        match wm_price_from_statistics url_name w with
        | (Ok (Some v), w1) => (Ok (Some v), w1)
        | (Ok None, w1) => try_candidates candidates' w1
        | (Raise (HTTPError code), w1) =>
            if is_transient code
            then (Ok None, sleep (5 # 4) w1)
            else (Raise (HTTPError code), w1)
        | (Raise e, w1) => (Raise e, w1)
        end
    end.

(** The outer loop, with its two accumulators. *)
Fixpoint price_items (reward_items : list string) (prices : gmap string Z)
    (missing_items : list string) : M (gmap string Z * list string) :=
  fun w =>
    match reward_items with
    | [] => (Ok (prices, missing_items), w)
    | item_name :: reward_items' =>
        match try_candidates (wm_url_candidates item_name) w with
        | (Raise e, w1) => (Raise e, w1)
        | (Ok v, w1) =>
            let '(prices', missing_items') :=
              match v with
              | None => (prices, (missing_items ++ [item_name])%list)
              | Some p => (<[item_name := p]> prices, missing_items)
              end in
            price_items reward_items' prices' missing_items'
              (sleep SLEEP_BETWEEN_WM_CALLS w1)
        end
    end.

Definition build_prices_from_wm_statistics (relics_min : list relic)
    : M (gmap string Z * list string) :=
  price_items (unique_reward_items relics_min) ∅ [].

(** ** [main] *)

Definition PRICES_OUT : string := "data/prices.json".
Definition MISSING_TXT : string := "data/missing_prices.txt".
Definition MISSING_JSON : string := "data/missing_prices.json".

Definition write_missing_debug (missing_items : list string) (w : world) : world :=
  let missing_sorted := sorted (list_to_set missing_items) in
  log (WriteFile MISSING_JSON (NamesJson missing_sorted))
    (log (WriteFile MISSING_TXT (NamesText missing_sorted)) w).

Definition MIN_PRICES : Z := 25.

Definition too_few_prices (n : nat) : exn :=
  RuntimeError ("Too few prices (" +:+ pretty n +:+
                "). warframe.market calls may be failing, or endpoint changed.").

Section Main.

(** The catalog half of the script, which the pricing half only calls. *)
Variable build_relics_min : M (list relic).

Definition main : M unit :=
  fun w =>
    match build_relics_min w with
    | (Raise e, w1) => (Raise e, w1)
    | (Ok relics_min, w1) =>
        match build_prices_from_wm_statistics relics_min w1 with
        | (Raise e, w2) => (Raise e, w2)
        | (Ok (prices, missing_items), w2) =>
            let w3 := log (WriteFile PRICES_OUT (PricesJson prices)) w2 in
            let w4 := write_missing_debug missing_items w3 in
            if Z.of_nat (size prices) <? MIN_PRICES
            then (Raise (too_few_prices (size prices)), w4)
            else (Ok tt, w4)
        end
    end.

End Main.

(** ** Reading a document by its shape

    The definitions below describe a statistics document without running
    the extractor; the theorems compare the extractor with them. *)

(** [d.get(k)] on a dict given by its items. *)
Definition field (d : list (string * pyval)) (k : string) : pyval :=
  from_option id PNone (assoc d k).

(** The [median] field of the last record of a window of a section, when
    the section is a dict, the window a non-empty list and its last record
    a dict. *)
Definition last_median (section : pyval) (window_key : string) : option pyval :=
  match section with
  | PDict sd =>
      match field sd window_key with
      | PList l =>
          match last l with
          | Some (PDict record) => Some (field record "median")
          | _ => None
          end
      | _ => None
      end
  | _ => None
  end.

(** The two sections of a document, when the document and its [payload]
    entry are dicts ([payload] defaults to an empty dict). *)
Definition sections (payload : pyval) : option (pyval * pyval) :=
  match payload with
  | PDict d =>
      match from_option id (PDict []) (assoc d "payload") with
      | PDict pd => Some (field pd "statistics_closed", field pd "statistics_open")
      | _ => None
      end
  | _ => None
  end.

(** What a stage yields, read off the document's shape. *)
Definition stage_value (section : pyval) (window_key : string) : option Z :=
  match last_median section window_key with
  | Some med =>
      if is_None med then None
      else match int_round_float med with
           | Ok n => Some n
           | Raise _ => None
           end
  | None => None
  end.


(** A stage has no data: one constructor for each way a document can be
    short of a usable median. *)
Inductive unavailable (section : pyval) (window_key : string) : Prop :=
| section_not_dict :
    isinstance_dict section = false -> unavailable section window_key
| window_missing_or_empty sd :
    section = PDict sd -> truthy (field sd window_key) = false ->
    unavailable section window_key
| window_not_list sd :
    section = PDict sd -> isinstance_list (field sd window_key) = false ->
    unavailable section window_key
| record_not_dict sd l r :
    section = PDict sd -> field sd window_key = PList l -> last l = Some r ->
    isinstance_dict r = false -> unavailable section window_key
| median_missing sd l record :
    section = PDict sd -> field sd window_key = PList l ->
    last l = Some (PDict record) -> field record "median" = PNone ->
    unavailable section window_key
| median_not_convertible sd l record e :
    section = PDict sd -> field sd window_key = PList l ->
    last l = Some (PDict record) ->
    int_round_float (field record "median") = Raise e ->
    unavailable section window_key.

(** A JSON number. *)
Definition is_number (v : pyval) : bool :=
  match v with
  | PInt _ | PFloat _ => true
  | _ => false
  end.



(** The float a decimal literal [d * 10^e10] of a JSON document is read
    as. *)
Definition float_lit (d e10 : Z) : spec_float :=
  FloatParse.float_of_decimal (d <? 0) (Z.abs d) e10.

(** A document with one record, in one window of one section:
    [{"payload": {section: {window_key: [{"median": med}]}}}]. *)
Definition one_record_doc (section window_key : string) (med : pyval) : pyval :=
  PDict [("payload",
          PDict [(section, PDict [(window_key, PList [PDict [("median", med)]])])])].

(** ** Reading a name by its characters *)

Fixpoint all_chars (p : ascii -> bool) (s : string) : bool :=
  match s with
  | EmptyString => true
  | String c s' => p c && all_chars p s'
  end.

(** A character that leaves a letter or a digit in the slug: [A-Za-z0-9],
    and [&], which becomes [and]. *)
Definition slug_source (c : ascii) : bool :=
  PyStr.is_alpha c || FloatParse.is_digit c || Ascii.eqb c "&".

Definition has_slug_source (item_name : string) : bool :=
  negb (all_chars (fun c => negb (slug_source c)) item_name).

(** ** Reading a catalog by its entries *)

(** [x] is the non-empty item name of some reward of some relic. *)
Definition reward_item (relics_min : list relic) (x : string) : Prop :=
  x <> "" /\ exists r rw, r ∈ relics_min /\ rw ∈ rewards r /\ item rw = x.

(** ** Reading a run of the fetcher *)

(** An exception the fetcher answers with a sleep and another attempt. *)
Definition retried (e : exn) : bool :=
  match e with
  | HTTPError code => is_transient code
  | _ => true
  end.

Definition is_http_error (e : exn) : bool :=
  match e with
  | HTTPError _ => true
  | _ => false
  end.

(** What [http_json] raises after its loop. *)
Definition raise_last (last_err : option exn) : result pyval :=
  match last_err with
  | Some e => Raise e
  | None => Raise (RuntimeError "http_json failed with unknown error")
  end.

(** One failed attempt with index [i], as seen in the trace. *)
Definition failed_attempt (url : string) (i : Z) : list event :=
  [Request url; Sleep (backoff i)].

(** ** Sample documents *)

(** Two records in the 90-day window of the closed section, one record in
    the 48-hour window of the open section. *)
Definition closed90_open48_doc (first_closed last_closed last_open : pyval) : pyval :=
  PDict [("payload",
          PDict [("statistics_closed",
                  PDict [("90days", PList [PDict [("median", first_closed)];
                                           PDict [("median", last_closed)]])]);
                 ("statistics_open",
                  PDict [("48hours", PList [PDict [("median", last_open)]])])])].

(** A document in which each stage lacks data in its own way: the closed
    section has an empty 90-day window and a 48-hour record whose median is
    not a number; the open section is a list. *)
Definition no_data_doc : pyval :=
  PDict [("payload",
          PDict [("statistics_closed",
                  PDict [("90days", PList []);
                         ("48hours", PList [PDict [("median", PStr "n/a")]])]);
                 ("statistics_open", PList [])])].

(** ** Sample catalogs *)

Definition one_reward (item_name : string) : list relic :=
  [mkRelic "Axi" "A1" true [mkReward item_name (Some (float_lit 2533 (-2))) "Uncommon"]].

(** A catalog of one relic with [n] rewards, named [Item 0], [Item 1], ... *)
Definition numbered_rewards (n : nat) : list relic :=
  [mkRelic "Lith" "B2" false
     ((fun k => mkReward ("Item " +:+ pretty k) None "Common") <$> seq 0 n)].

(** The document of the scenario: only a 48-hour closed median, [50]. *)
Definition closed48_doc : pyval := one_record_doc "statistics_closed" "48hours" (PInt 50).

(** Three item names: [Item 0], [Item 1] and one with two candidates. *)
Definition small_catalog : list relic :=
  (one_reward "Soma Prime Receiver" ++ numbered_rewards 2)%list.

(** A catalog half that hands over a fixed catalog. *)
Definition fixed_catalog (relics_min : list relic) : M (list relic) :=
  fun w => (Ok relics_min, w).

(** ** Sample worlds *)

(** A fresh world whose network answers the [k]-th request with the [k]-th
    response of a script, and with [default] after the script. *)
Definition scripted (script : list response) (default : response) : world :=
  mkWorld (fun k _ => nth k script default) 0 [].

(** ** Catalog: vault flags and relics

    [build_vaulted_map], and [build_relics_min] without its console output
    and without the writing of [Relics.min.json] (lines 192 to 196), for which
    the trace has no event. *)

Definition RELICS_ALL_URL : string :=
  "https://raw.githubusercontent.com/WFCD/warframe-drop-data/master/data/relics.json".

Definition RELICS_VAULT_MAP_URL : string :=
  "https://raw.githubusercontent.com/WFCD/warframe-relic-data/master/data/Relics.min.json".

(** One turn of the loop of [build_vaulted_map]. *)
Definition vault_entry (m : gmap string bool) (r : pyval) : gmap string bool :=
  match r with
  | PDict d =>
      match field d "name", field d "vaulted" with
      | PStr name, PBool vaulted =>
          if negb (String.eqb (PyStr.strip PyStr.isspace name) "")
          then <[PyStr.strip PyStr.isspace name := vaulted]> m
          else m
      | _, _ => m
      end
  | _ => m
  end.

(** What [build_vaulted_map] makes of the decoded document. *)
Definition vault_map_of (payload : pyval) : gmap string bool :=
  match payload with
  | PList l => foldl vault_entry ∅ l
  | _ => ∅
  end.

Definition build_vaulted_map : M (gmap string bool) :=
  fun w =>
    match http_json RELICS_VAULT_MAP_URL default_attempts w with
    | (Raise _, w1) => (Ok ∅, w1)
    | (Ok payload, w1) => (Ok (vault_map_of payload), w1)
    end.

(** [(v or "").strip()]; only a string has the method. *)
Definition or_empty_strip (v : pyval) : result string :=
  match py_or v (PStr "") with
  | PStr s => Ok (PyStr.strip PyStr.isspace s)
  | _ => Raise AttributeError
  end.

(** [float(chance) if chance is not None else None], with None for whatever
    [float] refuses. *)
Definition parse_chance (chance : pyval) : option spec_float :=
  if is_None chance then None
  else match try_except (x <- py_float chance ;; Ok (Some x))%result (fun _ => Ok None) with
       | Ok c => c
       | Raise _ => None
       end.

(** One turn of the loop over the rewards of a relic: the reward to
    append, if any. *)
Definition parse_reward (rw : pyval) : result (option reward) :=
  match rw with
  | PDict d =>
      (item <- or_empty_strip
                 (py_or (py_or (field d "itemName") (field d "item")) (field d "name")) ;;
       if String.eqb item "" then Ok None else
       let chance := parse_chance (field d "chance") in
       rtype <- or_empty_strip (py_or (field d "rarity") (field d "type")) ;;
       Ok (Some (mkReward item chance rtype)))%result
  | _ => Ok None
  end.

Fixpoint parse_rewards (rewards : list pyval) : result (list reward) :=
  match rewards with
  | [] => Ok []
  | rw :: rewards' =>
      (r <- parse_reward rw ;;
       rs <- parse_rewards rewards' ;;
       Ok (match r with Some x => x :: rs | None => rs end))%result
  end.

(** [f"{tier} {code}".strip()] *)
Definition full_name_of (tier code : string) : string :=
  PyStr.strip PyStr.isspace (tier +:+ " " +:+ code).

(** One turn of the loop over the relics, on [out] and [seen]. *)
Definition parse_relic (vault_map : gmap string bool) (st : list relic * gset string)
    (r : pyval) : result (list relic * gset string) :=
  let '(out, seen) := st in
  match r with
  | PDict d =>
      (state <- or_empty_strip (field d "state") ;;
       if negb (String.eqb state "Intact") then Ok st else
       tier <- or_empty_strip (field d "tier") ;;
       code <- or_empty_strip (field d "relicName") ;;
       if String.eqb tier "" || String.eqb code "" then Ok st else
       let full_name := full_name_of tier code in
       if bool_decide (full_name ∈ seen) then Ok st else
       let seen := {[full_name]} ∪ seen in
       let rewards := py_or (field d "rewards") (PList []) in
       if negb (isinstance_list rewards) || negb (truthy rewards) then Ok (out, seen) else
       match rewards with
       | PList l =>
           out_rewards <- parse_rewards l ;;
           match out_rewards with
           | [] => Ok (out, seen)
           | _ :: _ =>
               let vaulted := default true (vault_map !! full_name) in
               Ok ((out ++ [mkRelic tier code vaulted out_rewards])%list, seen)
           end
       | _ => Ok (out, seen)
       end)%result
  | _ => Ok st
  end.

Fixpoint parse_relics (vault_map : gmap string bool) (relics : list pyval)
    (st : list relic * gset string) : result (list relic * gset string) :=
  match relics with
  | [] => Ok st
  | r :: relics' =>
      (st' <- parse_relic vault_map st r ;; parse_relics vault_map relics' st')%result
  end.

Definition TIER_ORDER : gmap string Z :=
  {["Lith" := 0; "Meso" := 1; "Neo" := 2; "Axi" := 3]}.

Definition sort_key (x : relic) : Z * string :=
  (default 99 (TIER_ORDER !! tier x), name x).

(** The order of the keys: tuples compare by their first components, then
    by their second. *)
Definition key_le (a b : Z * string) : bool :=
  (fst a <? fst b) || ((fst a =? fst b) && String.leb (snd a) (snd b)).

(** [out.sort(key=sort_key)]: the sort is stable, an element stays before
    the later elements with an equal key. *)
Fixpoint insert_by_key (x : relic) (l : list relic) : list relic :=
  match l with
  | [] => [x]
  | y :: l' =>
      if key_le (sort_key x) (sort_key y) then x :: l else y :: insert_by_key x l'
  end.

Definition sort_by_key (l : list relic) : list relic := foldr insert_by_key [] l.

Definition unexpected_format : exn :=
  RuntimeError "Unexpected format for relics.json (expected { relics: [...] }).".

Definition relics_empty : exn :=
  RuntimeError "Relics list is empty after parsing. Aborting so we don't publish [].".

(** The list under ["relics"], when the document has the expected
    format. *)
Definition relics_field (payload : pyval) : option (list pyval) :=
  match payload with
  | PDict d =>
      match assoc d "relics" with
      | Some (PList l) => Some l
      | _ => None
      end
  | _ => None
  end.

Definition build_relics_min : M (list relic) :=
  fun w =>
    match http_json RELICS_ALL_URL default_attempts w with
    | (Raise e, w1) => (Raise e, w1)
    | (Ok payload, w1) =>
        match relics_field payload with
        | None => (Raise unexpected_format, w1)
        | Some relics =>
            match build_vaulted_map w1 with
            | (Raise e, w2) => (Raise e, w2)
            | (Ok vault_map, w2) =>
                match parse_relics vault_map relics ([], ∅) with
                | Raise e => (Raise e, w2)
                | Ok (out, _) =>
                    let out := sort_by_key out in
                    match out with
                    | [] => (Raise relics_empty, w2)
                    | _ :: _ => (Ok out, w2)
                    end
                end
            end
        end
    end.

(** ** Reading a catalog entry *)

(** A string that [strip()] leaves as it is. *)
Definition stripped (s : string) : Prop := PyStr.strip PyStr.isspace s = s.

(** The name a relic goes by in the vault map: tier, a space, code. *)
Definition relic_full_name (r : relic) : string := tier r +:+ " " +:+ name r.

Definition reward_ok (rw : reward) : Prop :=
  item rw <> "" /\ stripped (item rw) /\ stripped (type_ rw).

Definition relic_ok (vault_map : gmap string bool) (r : relic) : Prop :=
  tier r <> "" /\ name r <> "" /\ stripped (tier r) /\ stripped (name r) /\
  rewards r <> [] /\ Forall reward_ok (rewards r) /\
  vaulted r = default true (vault_map !! relic_full_name r).

(** The order [sort] puts the relics in. *)
Definition relic_le (a b : relic) : Prop := key_le (sort_key a) (sort_key b) = true.

(** An entry the loop over the relics passes over before looking at its
    name: not a dict, or with a state that is not ["Intact"]. *)
Definition not_intact (r : pyval) : Prop :=
  match r with
  | PDict d => exists state, or_empty_strip (field d "state") = Ok state /\ state <> "Intact"
  | _ => True
  end.

(** An Intact entry for the relic [tier code]. *)
Definition intact_entry (d : list (string * pyval)) (tier code : string) : Prop :=
  or_empty_strip (field d "state") = Ok "Intact" /\
  or_empty_strip (field d "tier") = Ok tier /\
  or_empty_strip (field d "relicName") = Ok code /\
  tier <> "" /\ code <> "".

(** ** Sample catalog documents *)

Definition relic_entry (state tier code : string) (rewards : pyval) : pyval :=
  PDict [("tier", PStr tier); ("relicName", PStr code); ("state", PStr state);
         ("rewards", rewards)].

Definition reward_entry (item_name : string) (chance : pyval) : pyval :=
  PDict [("itemName", PStr item_name); ("rarity", PStr "Uncommon"); ("chance", chance)].

(** Five entries: two Intact relics out of order, a Radiant copy, an entry
    without usable rewards and a second entry for the same relic. *)
Definition sample_relics_doc : pyval :=
  PDict [("relics", PList [
    relic_entry "Intact" " Axi " "A1"
      (PList [reward_entry " Soma Prime Receiver " (PFloat (float_lit 2533 (-2)));
              PInt 3; reward_entry "" PNone]);
    relic_entry "Radiant" "Axi" "A1" (PList [reward_entry "Forma Blueprint" (PInt 2)]);
    relic_entry "Intact" "Lith" "B2" (PList [reward_entry "Forma Blueprint" (PStr "n/a")]);
    relic_entry "Intact" "Meso" "C3" (PList []);
    relic_entry "Intact" "Meso" "C3" (PList [reward_entry "Forma Blueprint" PNone])])].

Definition sample_vault_doc : pyval :=
  PList [PDict [("name", PStr "Lith B2 "); ("vaulted", PBool false)];
         PInt 2;
         PDict [("name", PStr "Axi A1"); ("vaulted", PStr "yes")]].

(** ** Reading a slug *)

(** [[a-z0-9_]] *)
Definition slug_char (c : ascii) : bool := negb (not_slug_char c) || is_underscore c.

(** ** Reading a network *)

(** From its [n]-th request on, the network answers every request with a
    404 or a 403. *)
Definition blocked_from (n : nat) (w : world) : Prop :=
  forall k url, (n <= k)%nat ->
                exists code, is_not_found code = true /\ net w k url = Fails (HTTPError code).

(** * Theorems *)

(** ** Price extractor *)

Lemma median_from_stats_section_value section window_key :
  _median_from_stats_section section window_key = Ok (stage_value section window_key).
Proof.
  unfold _median_from_stats_section, stage_value, last_median, field.
  destruct section as [| | | | |l|sd]; try reflexivity.
  cbn [isinstance_dict negb get get_default rbind].
  destruct (assoc sd window_key) as [v|]; cbn [from_option id]; [|reflexivity].
  unfold py_or.
  destruct v as [|b|n|x|s|l|d]; cbn [truthy]; try reflexivity.
  - destruct b; reflexivity.
  - destruct (n =? 0); reflexivity.
  - destruct (float_is_zero x); reflexivity.
  - destruct (s =? "")%string; reflexivity.
  - destruct l as [|r l]; [reflexivity|].
    cbn [isinstance_list negb orb truthy index_last].
    destruct (last (r :: l)) as [rec|] eqn:Hlast.
    + cbn [rbind]. destruct rec as [| | | | | |record]; try reflexivity.
      cbn [isinstance_dict negb get get_default rbind from_option id].
      destruct (is_None _); [reflexivity|].
      unfold try_except. destruct (int_round_float _); reflexivity.
    + apply last_None in Hlast. discriminate.
  - destruct d; reflexivity.
Qed.

Lemma extract_price_sections payload :
  extract_price payload =
  Ok match sections payload with
     | Some (closed, open_) =>
         match stage_value closed "90days" with
         | Some v => Some v
         | None =>
             match stage_value open_ "90days" with
             | Some v => Some v
             | None =>
                 match stage_value closed "48hours" with
                 | Some v => Some v
                 | None => stage_value open_ "48hours"
                 end
             end
         end
     | None => None
     end.
Proof.
  unfold extract_price, sections.
  destruct payload as [| | | | | |d]; try reflexivity.
  cbn [get_default rbind].
  destruct (from_option id (PDict []) (assoc d "payload")) as [| | | | | |pd];
    try reflexivity.
  cbn [get get_default rbind]. fold (field pd "statistics_closed").
  fold (field pd "statistics_open").
  unfold return_if_not_None.
  rewrite !median_from_stats_section_value. cbn [rbind].
  destruct (stage_value (field pd "statistics_closed") "90days"); [reflexivity|].
  destruct (stage_value (field pd "statistics_open") "90days"); [reflexivity|].
  destruct (stage_value (field pd "statistics_closed") "48hours"); [reflexivity|].
  destruct (stage_value (field pd "statistics_open") "48hours"); reflexivity.
Qed.

Lemma unavailable_stage_value section window_key :
  unavailable section window_key -> stage_value section window_key = None.
Proof.
  unfold stage_value, last_median.
  intros [Hs|sd -> Hw|sd -> Hw|sd l r -> Hw Hl Hr|sd l record -> Hw Hl Hm
         |sd l record e -> Hw Hl Hm].
  - destruct section; try reflexivity. discriminate.
  - destruct (field sd window_key) as [| | | | |[|r l]|]; try reflexivity.
    discriminate.
  - destruct (field sd window_key); try reflexivity. discriminate.
  - rewrite Hw, Hl. destruct r; try reflexivity. discriminate.
  - rewrite Hw, Hl, Hm. reflexivity.
  - rewrite Hw, Hl, Hm. destruct (is_None _); reflexivity.
Qed.

(** *** Rounding *)




Lemma tie_value k d m :
  0 < d -> 0 <= k -> 2 * m = (2 * k + 1) * d ->
  (2 * m + d) / (2 * d) = k + 1 /\
  2 * ((2 * m + 2 * d) / (2 * (2 * d))) = (if Z.even k then k else k + 1).
Proof.
  intros Hd Hk Hm. split.
  - symmetry. apply Z.div_unique with (r := 0); nia.
  - destruct (Z.even k) eqn:He.
    + apply Z.even_spec in He as [j ->].
      assert ((2 * m + 2 * d) / (2 * (2 * d)) = j); [|lia].
      symmetry. apply Z.div_unique with (r := 3 * d); nia.
    + assert (Ho : Z.odd k = true) by (rewrite <- Z.negb_even, He; reflexivity).
      apply Z.odd_spec in Ho as [j ->].
      assert ((2 * m + 2 * d) / (2 * (2 * d)) = j + 1); [|lia].
      symmetry. apply Z.div_unique with (r := d); nia.
Qed.

Lemma round_mag_shift m e : 0 <= e -> round_mag m e = m * 2 ^ e.
Proof.
  intros He. unfold round_mag, half_away, c_round.
  destruct (Z.leb_spec 0 e); [reflexivity|lia].
Qed.

Lemma round_mag_frac m e :
  e < 0 ->
  let d := 2 ^ (- e) in
  0 < d /\
  round_mag m e =
    if Z.abs (2 * m - 2 * ((2 * m + d) / (2 * d)) * d) =? d
    then 2 * ((2 * m + 2 * d) / (2 * (2 * d)))
    else (2 * m + d) / (2 * d).
Proof.
  intros He d. split; [apply Z.pow_pos_nonneg; lia|].
  unfold round_mag, half_away, c_round.
  destruct (Z.leb_spec 0 e); [lia|].
  destruct (Z.leb_spec 0 (e - 1)); [lia|].
  replace (- (e - 1)) with (Z.succ (- e)) by lia.
  rewrite Z.pow_succ_r by lia. reflexivity.
Qed.





Lemma py_round_tie s m e k :
  0 <= k -> e < 0 -> 2 * Zpos m = (2 * k + 1) * 2 ^ (- e) ->
  py_round (S754_finite s m e) = Ok (cond_Zopp s (if Z.even k then k else k + 1)).
Proof.
  intros Hk He Hm. cbn [py_round]. do 2 f_equal.
  destruct (round_mag_frac (Zpos m) e He) as [Hd ->].
  destruct (tie_value k (2 ^ (- e)) (Zpos m) Hd Hk Hm) as [Hq Hv].
  rewrite Hq, Hv.
  destruct (Z.eqb_spec (Z.abs (2 * Zpos m - 2 * (k + 1) * 2 ^ (- e))) (2 ^ (- e)));
    [reflexivity|lia].
Qed.



(** *** The claims on the extractor *)

(** C3. The extractor tries closed/90days, open/90days, closed/48hours and
    open/48hours in this order and returns the first stage that yields a
    value; the value of a stage comes from the median of the last record of
    its window. In particular a document with data in both closed/90days
    and open/48hours gives the 90-day closed value. *)
Theorem extract_price_fallback_order payload closed open_ :
  sections payload = Some (closed, open_) ->
  let stage := _median_from_stats_section in
  (forall section window_key,
      stage section window_key = Ok (stage_value section window_key)) /\
  (forall a, stage closed "90days" = Ok (Some a) ->
             extract_price payload = Ok (Some a)) /\
  (forall a, stage closed "90days" = Ok None ->
             stage open_ "90days" = Ok (Some a) ->
             extract_price payload = Ok (Some a)) /\
  (forall a, stage closed "90days" = Ok None ->
             stage open_ "90days" = Ok None ->
             stage closed "48hours" = Ok (Some a) ->
             extract_price payload = Ok (Some a)) /\
  (stage closed "90days" = Ok None ->
   stage open_ "90days" = Ok None ->
   stage closed "48hours" = Ok None ->
   extract_price payload = stage open_ "48hours") /\
  (forall a b, stage closed "90days" = Ok (Some a) ->
               stage open_ "48hours" = Ok (Some b) ->
               extract_price payload = Ok (Some a)).
Proof.
  intros Hs stage. subst stage.
  rewrite extract_price_sections, Hs.
  repeat split; intros *; rewrite ?median_from_stats_section_value;
    repeat (let H := fresh in intros H; injection H as ->); reflexivity.
Qed.

Lemma extract_price_fallback_order_witness :
  sections (closed90_open48_doc (PInt 7) (PInt 10) (PInt 99)) =
    Some (PDict [("90days", PList [PDict [("median", PInt 7)];
                                   PDict [("median", PInt 10)]])],
          PDict [("48hours", PList [PDict [("median", PInt 99)]])]) /\
  extract_price (closed90_open48_doc (PInt 7) (PInt 10) (PInt 99)) = Ok (Some 10).
Proof.
  split; [reflexivity|].
  destruct (extract_price_fallback_order
              (closed90_open48_doc (PInt 7) (PInt 10) (PInt 99)) _ _ eq_refl)
    as (_ & _ & _ & _ & _ & H).
  apply (H 10 99); reflexivity.
Defined.

(** C4, as the code has it. The extractor never raises, whatever the
    document. It returns None when the document or its payload entry is not
    a dict, and when each of the four stages lacks data: the section is not
    a dict, the window is missing, empty or not a list, the last record is
    not a dict, the median is missing or null, or [int(round(float(median)))]
    raises. *)
Theorem extract_price_no_data payload :
  (exists r, extract_price payload = Ok r) /\
  (sections payload = None -> extract_price payload = Ok None) /\
  (forall closed open_,
      sections payload = Some (closed, open_) ->
      unavailable closed "90days" -> unavailable open_ "90days" ->
      unavailable closed "48hours" -> unavailable open_ "48hours" ->
      extract_price payload = Ok None).
Proof.
  rewrite extract_price_sections. split; [eauto|]. split.
  - intros ->. reflexivity.
  - intros closed open_ -> H1 H2 H3 H4.
    rewrite !unavailable_stage_value by assumption. reflexivity.
Qed.

Lemma extract_price_no_data_witness :
  extract_price no_data_doc = Ok None /\ extract_price (PList []) = Ok None.
Proof.
  split.
  - refine (proj2 (proj2 (extract_price_no_data no_data_doc)) _ _ eq_refl _ _ _ _).
    + eapply window_missing_or_empty; reflexivity.
    + apply section_not_dict; reflexivity.
    + eapply median_not_convertible; reflexivity.
    + apply section_not_dict; reflexivity.
  - apply (proj1 (proj2 (extract_price_no_data (PList [])))). reflexivity.
Defined.

(** C4, as stated, fails: a median that is a string of digits is not a
    number, yet the extractor converts it and returns a price. *)
Lemma extract_price_string_median :
  is_number (PStr "50") = false /\
  extract_price (one_record_doc "statistics_closed" "90days" (PStr "50")) = Ok (Some 50) /\
  extract_price (one_record_doc "statistics_closed" "90days" (PStr "50")) <> Ok None.
Proof. split; [reflexivity|]. split; [vm_compute; reflexivity|discriminate]. Qed.

(** Medians that [float] or [round] refuses: a list, a string that is not
    a number, NaN, an infinity, an int beyond the range of a float. *)
Example int_round_float_refused :
  int_round_float (PList []) = Raise TypeError /\
  int_round_float (PStr "n/a") = Raise ValueError /\
  int_round_float (PFloat S754_nan) = Raise ValueError /\
  int_round_float (PStr "-inf") = Raise OverflowError /\
  int_round_float (PInt (2 ^ 1024)) = Raise OverflowError.
Proof. repeat split; vm_compute; reflexivity. Qed.

(** The same holds for a boolean median. *)
Example extract_price_bool_median :
  extract_price (one_record_doc "statistics_open" "48hours" (PBool true)) = Ok (Some 1).
Proof. reflexivity. Qed.




(** C10. A median halfway between two integers goes to the even one: 12.5
    gives 12 and 13.5 gives 14. *)
Theorem round_half_to_even :
  (forall s m e k,
      0 <= k -> e < 0 -> 2 * Zpos m = (2 * k + 1) * 2 ^ (- e) ->
      int_round_float (PFloat (S754_finite s m e))
      = Ok (cond_Zopp s (if Z.even k then k else k + 1))) /\
  float_lit 125 (-1) = S754_finite false 7036874417766400 (-49) /\
  float_lit 135 (-1) = S754_finite false 7599824371187712 (-49) /\
  extract_price (one_record_doc "statistics_closed" "90days" (PFloat (float_lit 125 (-1))))
    = Ok (Some 12) /\
  extract_price (one_record_doc "statistics_closed" "90days" (PFloat (float_lit 135 (-1))))
    = Ok (Some 14).
Proof.
  split; [|repeat split; vm_compute; reflexivity].
  intros s m e k Hk He Hm. unfold int_round_float. cbn [py_float rbind].
  rewrite (py_round_tie s m e k Hk He Hm). reflexivity.
Qed.

Lemma round_half_to_even_witness :
  int_round_float (PFloat (S754_finite false 7036874417766400 (-49))) = Ok 12 /\
  int_round_float (PFloat (S754_finite true 7599824371187712 (-49))) = Ok (-14).
Proof.
  split.
  - apply (proj1 round_half_to_even false 7036874417766400%positive (-49) 12); vm_compute;
      first [reflexivity|discriminate].
  - apply (proj1 round_half_to_even true 7599824371187712%positive (-49) 13); vm_compute;
      first [reflexivity|discriminate].
Defined.

(** ** Resilient fetcher *)

Lemma http_json_loop_exhausted url indices :
  forall errs last_err w,
    length errs = length indices ->
    (forall k e, errs !! k = Some e ->
                 retried e = true /\ net w (sent w + k)%nat url = Fails e) ->
    http_json_loop url indices last_err w =
    (raise_last (from_option Some last_err (last errs)),
     mkWorld (net w) (sent w + length indices)%nat
             (trace w ++ concat (failed_attempt url <$> indices))).
Proof.
  induction indices as [|i indices IH]; intros errs last_err w Hlen Hnet.
  - destruct errs; [|discriminate]. cbn.
    rewrite Nat.add_0_r, app_nil_r. destruct w, last_err; reflexivity.
  - destruct errs as [|e errs]; [discriminate|].
    injection Hlen as Hlen.
    destruct (Hnet 0%nat e eq_refl) as [Hre H0]. rewrite Nat.add_0_r in H0.
    cbn [http_json_loop]. unfold urlopen_json. rewrite H0.
    set (w2 := sleep (backoff i)
                 (mkWorld (net w) (S (sent w)) (trace w ++ [Request url]))).
    assert (Hstep : http_json_loop url indices (Some e) w2 =
                    (raise_last (from_option Some last_err (last (e :: errs))),
                     mkWorld (net w) (sent w + length (i :: indices))%nat
                       (trace w ++ concat (failed_attempt url <$> i :: indices)))).
    { rewrite (IH errs (Some e) w2 Hlen).
      - f_equal.
        + rewrite last_cons. destruct (last errs); reflexivity.
        + cbn. rewrite <- !app_assoc. do 2 f_equal. lia.
      - intros k e' Hk. destruct (Hnet (S k) e' Hk) as [Hr Hn]. split; [assumption|].
        cbn. rewrite <- Hn. f_equal. lia. }
    destruct e; cbn [retried] in Hre; try exact Hstep.
    rewrite Hre. exact Hstep.
Qed.

Lemma http_json_first_error url attempts w :
  forall code,
    0 < attempts -> is_transient code = false ->
    net w (sent w) url = Fails (HTTPError code) ->
    http_json url attempts w =
    (Raise (HTTPError code), mkWorld (net w) (S (sent w)) (trace w ++ [Request url])).
Proof.
  intros code Ha Hc Hnet. unfold http_json, range.
  destruct (Z.to_nat attempts) as [|n] eqn:Hn; [lia|].
  cbn. rewrite Hnet, Hc. reflexivity.
Qed.

Lemma http_json_four_failures url w e0 e1 e2 e3 :
  retried e0 = true -> retried e1 = true -> retried e2 = true -> retried e3 = true ->
  net w (sent w) url = Fails e0 ->
  net w (sent w + 1)%nat url = Fails e1 ->
  net w (sent w + 2)%nat url = Fails e2 ->
  net w (sent w + 3)%nat url = Fails e3 ->
  http_json url default_attempts w =
  (Raise e3,
   mkWorld (net w) (sent w + 4)%nat
     (trace w ++ [Request url; Sleep (backoff 0); Request url; Sleep (backoff 1);
                  Request url; Sleep (backoff 2); Request url; Sleep (backoff 3)])).
Proof.
  intros R0 R1 R2 R3 H0 H1 H2 H3.
  unfold http_json.
  rewrite (http_json_loop_exhausted url (range default_attempts) [e0; e1; e2; e3]);
    [reflexivity|reflexivity|].
  intros [|[|[|[|k]]]] e [= <-]; rewrite ?Nat.add_0_r; auto.
Qed.

(** C5. When every answer is one of 429, 500, 502, 503, 504, the fetcher
    makes exactly four requests, sleeps [1.5 ** i] after the attempt of index
    [i] (1, 1.5, 2.25 and 3.375 seconds) and raises the last error. On a 404
    it makes one request, does not sleep and raises. *)
Theorem http_json_retry_ceiling :
  (forall url w c0 c1 c2 c3,
      is_transient c0 = true -> is_transient c1 = true ->
      is_transient c2 = true -> is_transient c3 = true ->
      net w (sent w) url = Fails (HTTPError c0) ->
      net w (sent w + 1)%nat url = Fails (HTTPError c1) ->
      net w (sent w + 2)%nat url = Fails (HTTPError c2) ->
      net w (sent w + 3)%nat url = Fails (HTTPError c3) ->
      http_json url default_attempts w =
      (Raise (HTTPError c3),
       mkWorld (net w) (sent w + 4)%nat
         (trace w ++ [Request url; Sleep (backoff 0); Request url; Sleep (backoff 1);
                      Request url; Sleep (backoff 2); Request url; Sleep (backoff 3)]))) /\
  (forall url w,
      net w (sent w) url = Fails (HTTPError 404) ->
      http_json url default_attempts w =
      (Raise (HTTPError 404),
       mkWorld (net w) (S (sent w)) (trace w ++ [Request url]))) /\
  default_attempts = 4 /\
  [backoff 0; backoff 1; backoff 2; backoff 3] = [1; 3 # 2; 9 # 4; 27 # 8]%Q /\
  (forall c, is_transient c = true <-> c ∈ [429; 500; 502; 503; 504]).
Proof.
  split; [|split; [|split; [|split]]].
  - intros url w c0 c1 c2 c3 T0 T1 T2 T3.
    apply http_json_four_failures; assumption.
  - intros url w. apply http_json_first_error; [reflexivity|reflexivity].
  - reflexivity.
  - reflexivity.
  - intros c. unfold is_transient, transient_codes. apply bool_decide_eq_true.
Qed.

Lemma http_json_retry_ceiling_witness :
  (let w := scripted [] (Fails (HTTPError 429)) in
   http_json "u" default_attempts w =
   (Raise (HTTPError 429),
    mkWorld (net w) 4
      [Request "u"; Sleep 1; Request "u"; Sleep (3 # 2);
       Request "u"; Sleep (9 # 4); Request "u"; Sleep (27 # 8)])) /\
  (let w := scripted [Fails (HTTPError 404)] (Returns PNone) in
   http_json "u" default_attempts w =
   (Raise (HTTPError 404), mkWorld (net w) 1 [Request "u"])).
Proof.
  split.
  - exact (proj1 http_json_retry_ceiling "u" (scripted [] (Fails (HTTPError 429)))
             429 429 429 429 eq_refl eq_refl eq_refl eq_refl
             eq_refl eq_refl eq_refl eq_refl).
  - exact (proj1 (proj2 http_json_retry_ceiling) "u"
             (scripted [Fails (HTTPError 404)] (Returns PNone)) eq_refl).
Defined.

(** C6, as the code has it. An HTTP error whose status is not one of 429,
    500, 502, 503, 504 (400 and 401 as well as 404 and 403) is raised at
    once: one request, no sleep, no retry. An error that is not an HTTP
    error (a timeout, a reset connection) is retried: when all four attempts
    fail this way, the fetcher has made four requests and slept after each,
    and raises the last error. *)
Theorem http_json_other_errors :
  (forall url w code,
      is_transient code = false ->
      net w (sent w) url = Fails (HTTPError code) ->
      http_json url default_attempts w =
      (Raise (HTTPError code),
       mkWorld (net w) (S (sent w)) (trace w ++ [Request url]))) /\
  (forall url w e0 e1 e2 e3,
      is_http_error e0 = false -> is_http_error e1 = false ->
      is_http_error e2 = false -> is_http_error e3 = false ->
      net w (sent w) url = Fails e0 ->
      net w (sent w + 1)%nat url = Fails e1 ->
      net w (sent w + 2)%nat url = Fails e2 ->
      net w (sent w + 3)%nat url = Fails e3 ->
      http_json url default_attempts w =
      (Raise e3,
       mkWorld (net w) (sent w + 4)%nat
         (trace w ++ [Request url; Sleep (backoff 0); Request url; Sleep (backoff 1);
                      Request url; Sleep (backoff 2); Request url; Sleep (backoff 3)]))).
Proof.
  split.
  - intros url w code. apply http_json_first_error. reflexivity.
  - intros url w e0 e1 e2 e3 N0 N1 N2 N3.
    apply http_json_four_failures;
      match goal with
      | |- retried ?e = true => destruct e; first [reflexivity|discriminate]
      end.
Qed.

Lemma http_json_other_errors_witness :
  (let w := scripted [Fails (HTTPError 401)] (Returns PNone) in
   http_json "u" default_attempts w =
   (Raise (HTTPError 401), mkWorld (net w) 1 [Request "u"])) /\
  (let w := scripted [Fails TimeoutError; Fails ConnectionResetError;
                      Fails (URLError "unreachable"); Fails TimeoutError]
                     (Returns PNone) in
   http_json "u" default_attempts w =
   (Raise TimeoutError,
    mkWorld (net w) 4
      [Request "u"; Sleep 1; Request "u"; Sleep (3 # 2);
       Request "u"; Sleep (9 # 4); Request "u"; Sleep (27 # 8)])).
Proof.
  split.
  - exact (proj1 http_json_other_errors "u"
             (scripted [Fails (HTTPError 401)] (Returns PNone)) 401 eq_refl eq_refl).
  - exact (proj2 http_json_other_errors "u"
             (scripted [Fails TimeoutError; Fails ConnectionResetError;
                        Fails (URLError "unreachable"); Fails TimeoutError]
                       (Returns PNone))
             TimeoutError ConnectionResetError (URLError "unreachable") TimeoutError
             eq_refl eq_refl eq_refl eq_refl eq_refl eq_refl eq_refl eq_refl).
Defined.

(** C6, as stated, fails: on a 400 the fetcher raises after its first
    request, although a second attempt would have been answered. *)
Lemma http_json_400_not_retried :
  is_transient 400 = false /\ is_not_found 400 = false /\
  http_json "u" default_attempts (scripted [Fails (HTTPError 400)] (Returns PNone)) =
  (Raise (HTTPError 400),
   mkWorld (net (scripted [Fails (HTTPError 400)] (Returns PNone))) 1 [Request "u"]).
Proof. repeat split. Qed.

(** ** Slug deriver *)

Lemma all_chars_ext p q s :
  (forall c, p c = q c) -> all_chars p s = all_chars q s.
Proof. intros H. induction s as [|c s IH]; cbn; [reflexivity|]. rewrite H, IH. reflexivity. Qed.

Lemma all_chars_app p s1 s2 :
  all_chars p (s1 +:+ s2) = all_chars p s1 && all_chars p s2.
Proof.
  induction s1 as [|c s1 IH]; [reflexivity|].
  change (String c s1 +:+ s2) with (String c (s1 +:+ s2)). cbn [all_chars].
  rewrite IH. apply andb_assoc.
Qed.

Lemma all_chars_rev_app p s1 s2 :
  all_chars p (String.rev_app s1 s2) = all_chars p s1 && all_chars p s2.
Proof.
  revert s2. induction s1 as [|c s1 IH]; intros s2; cbn; [reflexivity|].
  rewrite IH. cbn. destruct (p c), (all_chars p s1); reflexivity.
Qed.

Lemma all_chars_rev p s : all_chars p (String.rev s) = all_chars p s.
Proof. unfold String.rev. rewrite all_chars_rev_app. cbn. apply andb_true_r. Qed.

Lemma all_chars_map p f s :
  all_chars p (FloatParse.map_string f s) = all_chars (fun c => p (f c)) s.
Proof. induction s as [|c s IH]; cbn; [reflexivity|]. rewrite IH. reflexivity. Qed.

Lemma all_chars_lstrip p q s :
  (forall c, q c = true -> p c = true) ->
  all_chars p (FloatParse.lstrip q s) = all_chars p s.
Proof.
  intros H. induction s as [|c s IH]; cbn; [reflexivity|].
  destruct (q c) eqn:Hq; [|reflexivity].
  rewrite IH, (H c Hq). reflexivity.
Qed.

Lemma all_chars_strip p q s :
  (forall c, q c = true -> p c = true) ->
  all_chars p (PyStr.strip q s) = all_chars p s.
Proof.
  intros H. unfold PyStr.strip, PyStr.rstrip.
  rewrite all_chars_rev, all_chars_lstrip, all_chars_rev, all_chars_lstrip by assumption.
  reflexivity.
Qed.

Lemma lstrip_empty p s : FloatParse.lstrip p s = "" <-> all_chars p s = true.
Proof.
  induction s as [|c s IH]; cbn; [tauto|].
  destruct (p c); cbn; [assumption|]. split; discriminate.
Qed.

Lemma rev_empty s : String.rev s = "" <-> s = "".
Proof.
  split; [|intros ->; reflexivity].
  destruct s as [|c s]; [reflexivity|].
  intros H. assert (Hc : all_chars (fun _ => false) (String.rev (String c s)) = true)
    by (rewrite H; reflexivity).
  rewrite all_chars_rev in Hc. discriminate.
Qed.

Lemma strip_empty p s : PyStr.strip p s = "" <-> all_chars p s = true.
Proof.
  unfold PyStr.strip, PyStr.rstrip.
  rewrite rev_empty, lstrip_empty, all_chars_rev, all_chars_lstrip by auto.
  reflexivity.
Qed.

Lemma all_chars_sub_runs_nonslug s in_run :
  all_chars is_underscore (PyStr.sub_runs not_slug_char "_" s in_run)
  = all_chars not_slug_char s.
Proof.
  revert in_run. induction s as [|c s IH]; intros in_run; cbn; [reflexivity|].
  destruct (not_slug_char c) eqn:Hc.
  - destruct in_run; [apply IH|]. rewrite all_chars_app, IH. reflexivity.
  - cbn. replace (is_underscore c) with false; [reflexivity|].
    revert Hc. destruct c as [[] [] [] [] [] [] [] []]; vm_compute; congruence.
Qed.

Lemma all_chars_sub_runs_underscore s in_run :
  all_chars is_underscore (PyStr.sub_runs is_underscore "_" s in_run)
  = all_chars is_underscore s.
Proof.
  revert in_run. induction s as [|c s IH]; intros in_run; cbn; [reflexivity|].
  destruct (is_underscore c) eqn:Hc.
  - destruct in_run; [apply IH|]. rewrite all_chars_app, IH. reflexivity.
  - cbn. rewrite Hc. reflexivity.
Qed.

Lemma all_chars_replace_amp s :
  all_chars not_slug_char (PyStr.replace "&" "and" s)
  = all_chars (fun c => not_slug_char c && negb (Ascii.eqb c "&")) s.
Proof.
  unfold PyStr.replace. induction s as [|c s IH]; [reflexivity|].
  cbn [PyStr.replace_go String.prefix all_chars].
  destruct (ascii_dec "&" c) as [<-|Hne].
  - replace (String.prefix "" s) with true by (destruct s; reflexivity).
    rewrite all_chars_app. reflexivity.
  - cbn [all_chars]. rewrite IH.
    replace (Ascii.eqb c "&") with false; [rewrite andb_true_r; reflexivity|].
    symmetry. apply Ascii.eqb_neq. congruence.
Qed.

Lemma guess_wm_url_name_empty item_name :
  guess_wm_url_name item_name = "" <-> has_slug_source item_name = false.
Proof.
  unfold guess_wm_url_name, has_slug_source, PyStr.re_sub_runs, PyStr.lower.
  rewrite strip_empty, all_chars_sub_runs_underscore, all_chars_sub_runs_nonslug,
    all_chars_replace_amp, all_chars_map, all_chars_strip, negb_false_iff.
  - erewrite all_chars_ext; [reflexivity|].
    intros c. destruct c as [[] [] [] [] [] [] [] []]; vm_compute; reflexivity.
  - intros c. destruct c as [[] [] [] [] [] [] [] []]; vm_compute; congruence.
Qed.

Lemma wm_url_candidates_base item_name :
  guess_wm_url_name item_name <> "" ->
  head (wm_url_candidates item_name) = Some (guess_wm_url_name item_name).
Proof.
  intros Hne. unfold wm_url_candidates, WM_URL_OVERRIDES. rewrite lookup_empty.
  set (base := guess_wm_url_name item_name) in *.
  assert (Hb : (base =? "")%string = false) by (apply String.eqb_neq; assumption).
  destruct (PyStr.endswith base "_receiver"), (PyStr.contains "_receiver_" base);
    cbn [app dedupe]; rewrite Hb; reflexivity.
Qed.

Lemma wm_url_candidates_no_base item_name :
  guess_wm_url_name item_name = "" -> wm_url_candidates item_name = [].
Proof.
  intros He. unfold wm_url_candidates, WM_URL_OVERRIDES. rewrite lookup_empty, He.
  reflexivity.
Qed.

(** C7, as the code has it. The slug deriver returns at least one candidate
    exactly for the names that hold a letter, a digit or [&]; the first
    candidate is then the derived slug. For every other name (empty, blank,
    punctuation only) it returns no candidate. *)
Theorem wm_url_candidates_nonempty item_name :
  (wm_url_candidates item_name <> [] <-> guess_wm_url_name item_name <> "") /\
  (wm_url_candidates item_name <> [] <-> has_slug_source item_name = true) /\
  (has_slug_source item_name = true ->
   head (wm_url_candidates item_name) = Some (guess_wm_url_name item_name)) /\
  (has_slug_source item_name = false -> wm_url_candidates item_name = []).
Proof.
  pose proof (guess_wm_url_name_empty item_name) as He.
  assert (Hhead : has_slug_source item_name = true ->
                  head (wm_url_candidates item_name) = Some (guess_wm_url_name item_name)).
  { intros Hs. apply wm_url_candidates_base. intros Hg. apply He in Hg. congruence. }
  assert (Hnone : has_slug_source item_name = false -> wm_url_candidates item_name = []).
  { intros Hs. apply wm_url_candidates_no_base, He, Hs. }
  assert (Hiff : wm_url_candidates item_name <> [] <-> has_slug_source item_name = true).
  { destruct (has_slug_source item_name).
    - split; [reflexivity|]. intros _ Hnil. specialize (Hhead eq_refl).
      rewrite Hnil in Hhead. discriminate.
    - split; [|discriminate]. intros Hc. destruct Hc. apply Hnone. reflexivity. }
  split; [|split; [assumption|split; assumption]].
  rewrite Hiff, He. destruct (has_slug_source item_name); split; congruence.
Qed.

Lemma wm_url_candidates_nonempty_witness :
  has_slug_source "Soma Prime Receiver" = true /\
  head (wm_url_candidates "Soma Prime Receiver") = Some "soma_prime_receiver" /\
  has_slug_source " -- " = false /\
  wm_url_candidates " -- " = [].
Proof.
  split; [reflexivity|]. split.
  - exact (proj1 (proj2 (proj2 (wm_url_candidates_nonempty "Soma Prime Receiver"))) eq_refl).
  - split; [reflexivity|].
    exact (proj2 (proj2 (proj2 (wm_url_candidates_nonempty " -- "))) eq_refl).
Defined.

(** C7, as stated, fails: a name without a letter or a digit has no
    candidate at all. *)
Lemma wm_url_candidates_punctuation :
  wm_url_candidates "!!!" = [] /\ wm_url_candidates "" = [].
Proof. split; reflexivity. Qed.

Example wm_url_candidates_receiver :
  wm_url_candidates "Soma Prime Receiver" = ["soma_prime_receiver"; "soma_prime_reciever"].
Proof. reflexivity. Qed.

(** ** Batch resolver *)

Lemma inner_fold_items (s : gset string) rws x :
  x ∈ foldl (fun s rw => let it := item rw in
                         if negb (String.eqb it "") then {[it]} ∪ s else s) s rws
  <-> x ∈ s \/ (x <> "" /\ exists rw, rw ∈ rws /\ item rw = x).
Proof.
  revert s. induction rws as [|rw rws IH]; intros s; cbn [foldl].
  - split; [auto|]. intros [H|(_ & rw & H & _)]; [assumption|].
    destruct (not_elem_of_nil rw H).
  - rewrite IH. cbn zeta. destruct (String.eqb_spec (item rw) "") as [He|Hne]; cbn [negb].
    + split.
      * intros [H|(Hx & rw' & Hin & Hit)]; [auto|]. right. split; [assumption|].
        exists rw'. split; [right|]; assumption.
      * intros [H|(Hx & rw' & Hin & Hit)]; [auto|]. right. split; [assumption|].
        exists rw'. split; [|assumption].
        apply elem_of_cons in Hin as [->|Hin]; [congruence|assumption].
    + rewrite elem_of_union, elem_of_singleton. split.
      * intros [[->|H]|(Hx & rw' & Hin & Hit)].
        -- right. split; [assumption|]. exists rw. split; [left|reflexivity].
        -- auto.
        -- right. split; [assumption|]. exists rw'. split; [right|]; assumption.
      * intros [H|(Hx & rw' & Hin & Hit)]; [auto|].
        apply elem_of_cons in Hin as [->|Hin]; [auto|].
        right. split; [assumption|]. exists rw'. auto.
Qed.

Lemma outer_fold_items (s : gset string) relics_min x :
  x ∈ foldl (fun s r =>
               foldl (fun s rw => let it := item rw in
                                  if negb (String.eqb it "") then {[it]} ∪ s else s)
                     s (rewards r)) s relics_min
  <-> x ∈ s \/ reward_item relics_min x.
Proof.
  unfold reward_item. revert s.
  induction relics_min as [|r relics_min IH]; intros s; cbn [foldl].
  - split; [auto|]. intros [H|(_ & r & rw & H & _)]; [assumption|].
    destruct (not_elem_of_nil r H).
  - rewrite IH, inner_fold_items. split.
    + intros [[H|(Hx & rw & Hin & Hit)]|(Hx & r' & rw & Hr & Hin & Hit)].
      * auto.
      * right. split; [assumption|]. exists r, rw. split; [left|auto].
      * right. split; [assumption|]. exists r', rw. split; [right; assumption|auto].
    + intros [H|(Hx & r' & rw & Hr & Hin & Hit)]; [auto|].
      apply elem_of_cons in Hr as [->|Hr].
      * left. right. split; [assumption|]. exists rw. auto.
      * right. split; [assumption|]. exists r', rw. auto.
Qed.

Lemma sorted_elem_of (s : gset string) x : x ∈ sorted s <-> x ∈ s.
Proof. unfold sorted. rewrite merge_sort_Permutation. apply elem_of_elements. Qed.

Lemma sorted_NoDup (s : gset string) : NoDup (sorted s).
Proof. unfold sorted. rewrite merge_sort_Permutation. apply NoDup_elements. Qed.

Lemma unique_reward_items_spec relics_min :
  NoDup (unique_reward_items relics_min) /\
  forall x, x ∈ unique_reward_items relics_min <-> reward_item relics_min x.
Proof.
  unfold unique_reward_items. split; [apply sorted_NoDup|].
  intros x. rewrite sorted_elem_of, outer_fold_items. set_solver.
Qed.

Lemma price_items_partition reward_items :
  forall prices missing_items w prices' missing_items' w',
    price_items reward_items prices missing_items w = (Ok (prices', missing_items'), w') ->
    (forall x, x ∈ dom prices' \/ x ∈ missing_items' <->
               x ∈ reward_items \/ x ∈ dom prices \/ x ∈ missing_items) /\
    (NoDup reward_items ->
     (forall x, x ∈ reward_items -> (x ∉ dom prices) /\ (x ∉ missing_items)) ->
     (forall x, x ∈ dom prices -> x ∉ missing_items) ->
     forall x, x ∈ dom prices' -> x ∉ missing_items').
Proof.
  induction reward_items as [|a reward_items IH];
    intros prices missing_items w prices' missing_items' w'; cbn [price_items].
  - intros [= <- <- <-]. split; [|auto].
    intros x. rewrite elem_of_nil. tauto.
  - destruct (try_candidates (wm_url_candidates a) w) as [[[p|]|e] w1]; [| |discriminate].
    + intros H. apply IH in H as [Hcover Hdisj]. split.
      * intros x. rewrite Hcover, dom_insert_L. set_solver.
      * intros Hnd Hfresh Hold x. apply NoDup_cons in Hnd as [Ha Hnd].
        apply Hdisj; [assumption| |].
        -- intros y Hy. rewrite dom_insert_L, elem_of_union, elem_of_singleton.
           destruct (Hfresh y) as [H1 H2]; [right; assumption|].
           split; [|assumption]. intros [->|H]; auto.
        -- intros y. rewrite dom_insert_L, elem_of_union, elem_of_singleton.
           intros [->|H]; [|auto]. apply (Hfresh a). left.
    + intros H. apply IH in H as [Hcover Hdisj]. split.
      * intros x. rewrite Hcover. set_solver.
      * intros Hnd Hfresh Hold x. apply NoDup_cons in Hnd as [Ha Hnd].
        apply Hdisj; [assumption| |].
        -- intros y Hy. rewrite elem_of_app, list_elem_of_singleton.
           destruct (Hfresh y) as [H1 H2]; [right; assumption|].
           split; [assumption|]. intros [H| ->]; auto.
        -- intros y Hy. rewrite elem_of_app, list_elem_of_singleton.
           intros [H| ->]; [apply (Hold y); assumption|].
           destruct (Hfresh a) as [H1 _]; [left|]. auto.
Qed.

(** C1. When the batch resolver returns, the keys of [prices] and the
    names in [missing_items] are together exactly the distinct item names
    of the catalog, and no name is in both: each item name is in exactly
    one of the two. *)
Theorem build_prices_partition relics_min w prices missing_items w' :
  build_prices_from_wm_statistics relics_min w = (Ok (prices, missing_items), w') ->
  NoDup (unique_reward_items relics_min) /\
  (forall x, x ∈ unique_reward_items relics_min <-> reward_item relics_min x) /\
  (forall x, reward_item relics_min x ->
             (x ∈ dom prices /\ (x ∉ missing_items)) \/
             ((x ∉ dom prices) /\ x ∈ missing_items)) /\
  (forall x, x ∈ dom prices \/ x ∈ missing_items -> reward_item relics_min x).
Proof.
  intros H. destruct (unique_reward_items_spec relics_min) as [Hnd Hspec].
  apply price_items_partition in H as [Hcover Hdisj].
  assert (Hd : forall x, x ∈ dom prices -> x ∉ missing_items).
  { apply Hdisj; [assumption| |].
    - intros x _. rewrite dom_empty_L. split; [apply not_elem_of_empty|apply not_elem_of_nil].
    - intros x. rewrite dom_empty_L. intros Hx. destruct (not_elem_of_empty x Hx). }
  assert (Hc : forall x, x ∈ dom prices \/ x ∈ missing_items <->
                         x ∈ unique_reward_items relics_min).
  { intros x. rewrite Hcover, dom_empty_L. split; [|auto].
    intros [Hx|[Hx|Hx]]; [assumption| |].
    - destruct (not_elem_of_empty x Hx).
    - destruct (not_elem_of_nil x Hx). }
  split; [assumption|]. split; [assumption|]. split.
  - intros x Hx. apply Hspec, Hc in Hx as [Hx|Hx].
    + left. auto.
    + right. split; [|assumption]. intros Hp. apply (Hd x Hp Hx).
  - intros x Hx. apply Hspec, Hc, Hx.
Qed.

Lemma build_prices_partition_witness :
  let w := scripted [Fails (HTTPError 404); Returns closed48_doc] (Fails (HTTPError 403)) in
  fst (build_prices_from_wm_statistics small_catalog w)
  = Ok ({["Item 1" := 50]}, ["Item 0"; "Soma Prime Receiver"]) /\
  forall x, reward_item small_catalog x ->
            (x ∈ dom ({["Item 1" := 50]} : gmap string Z) /\
             (x ∉ ["Item 0"; "Soma Prime Receiver"])) \/
            ((x ∉ dom ({["Item 1" := 50]} : gmap string Z)) /\
             x ∈ ["Item 0"; "Soma Prime Receiver"]).
Proof.
  intros w.
  assert (H : fst (build_prices_from_wm_statistics small_catalog w)
              = Ok ({["Item 1" := 50]}, ["Item 0"; "Soma Prime Receiver"]))
    by (vm_compute; reflexivity).
  split; [exact H|].
  destruct (build_prices_from_wm_statistics small_catalog w) as [r w'] eqn:E.
  cbn [fst] in H. subst r.
  exact (proj1 (proj2 (proj2 (build_prices_partition _ _ _ _ _ E)))).
Defined.

Lemma not_found_not_transient code : is_not_found code = true -> is_transient code = false.
Proof.
  unfold is_not_found. intros H. apply bool_decide_eq_true in H.
  apply elem_of_cons in H as [->|H]; [reflexivity|].
  apply list_elem_of_singleton in H as ->. reflexivity.
Qed.

Lemma wm_price_not_found url_name w code :
  is_not_found code = true ->
  net w (sent w) (WM_ITEM_STATS url_name) = Fails (HTTPError code) ->
  wm_price_from_statistics url_name w =
  (Ok None, mkWorld (net w) (S (sent w)) (trace w ++ [Request (WM_ITEM_STATS url_name)])).
Proof.
  intros Hc Hnet. unfold wm_price_from_statistics.
  rewrite (http_json_first_error _ _ _ code); [|reflexivity| |assumption].
  - rewrite Hc. reflexivity.
  - apply not_found_not_transient. assumption.
Qed.




(** ** [main] *)

(** C8. When the batch ends with fewer than 25 priced items, [main] raises
    a [RuntimeError]; with 25 or more it returns normally. *)
Theorem main_threshold build_relics_min w relics_min w1 prices missing_items w2 :
  build_relics_min w = (Ok relics_min, w1) ->
  build_prices_from_wm_statistics relics_min w1 = (Ok (prices, missing_items), w2) ->
  MIN_PRICES = 25 /\
  ((size prices < 25)%nat ->
   fst (main build_relics_min w) = Raise (too_few_prices (size prices))) /\
  ((25 <= size prices)%nat ->
   fst (main build_relics_min w) = Ok tt).
Proof.
  intros Hr Hp. unfold main. rewrite Hr, Hp. unfold MIN_PRICES.
  split; [reflexivity|].
  split; intros Hn; destruct (Z.ltb_spec (Z.of_nat (size prices)) 25); first [reflexivity|lia].
Qed.

(** Either way the two output files are written before the test. *)
Lemma main_writes_first build_relics_min w relics_min w1 prices missing_items w2 :
  build_relics_min w = (Ok relics_min, w1) ->
  build_prices_from_wm_statistics relics_min w1 = (Ok (prices, missing_items), w2) ->
  snd (main build_relics_min w) =
  write_missing_debug missing_items (log (WriteFile PRICES_OUT (PricesJson prices)) w2).
Proof.
  intros Hr Hp. unfold main. rewrite Hr, Hp.
  destruct (Z.of_nat (size prices) <? MIN_PRICES); reflexivity.
Qed.

Lemma main_threshold_witness :
  fst (main (fixed_catalog (numbered_rewards 25))
         (scripted [] (Returns closed48_doc))) = Ok tt /\
  fst (main (fixed_catalog small_catalog)
         (scripted [Fails (HTTPError 404); Returns closed48_doc] (Fails (HTTPError 403))))
  = Raise (too_few_prices 1).
Proof.
  split.
  - set (w := scripted [] (Returns closed48_doc)).
    assert (Hs : match fst (build_prices_from_wm_statistics (numbered_rewards 25) w) with
                 | Ok (prices, _) => size prices = 25%nat
                 | Raise _ => False
                 end) by (vm_compute; reflexivity).
    destruct (build_prices_from_wm_statistics (numbered_rewards 25) w)
      as [[[prices missing_items]|e] w2] eqn:E; cbn [fst] in Hs; [|destruct Hs].
    apply (proj2 (proj2 (main_threshold (fixed_catalog (numbered_rewards 25)) w
                           _ _ _ _ _ eq_refl E))).
    rewrite Hs. apply le_n.
  - set (w := scripted [Fails (HTTPError 404); Returns closed48_doc] (Fails (HTTPError 403))).
    assert (Hs : match fst (build_prices_from_wm_statistics small_catalog w) with
                 | Ok (prices, _) => size prices = 1%nat
                 | Raise _ => False
                 end) by (vm_compute; reflexivity).
    destruct (build_prices_from_wm_statistics small_catalog w)
      as [[[prices missing_items]|e] w2] eqn:E; cbn [fst] in Hs; [|destruct Hs].
    rewrite <- Hs.
    apply (proj1 (proj2 (main_threshold (fixed_catalog small_catalog) w
                           _ _ _ _ _ eq_refl E))).
    rewrite Hs. repeat constructor.
Defined.

(** * Further properties *)

(** ** Resilient fetcher: success after retries, bounds, provenance *)

Lemma http_json_loop_success url pre :
  forall errs i post last_err w document,
    length errs = length pre ->
    (forall k e, errs !! k = Some e ->
                 retried e = true /\ net w (sent w + k)%nat url = Fails e) ->
    net w (sent w + length pre)%nat url = Returns document ->
    http_json_loop url (pre ++ i :: post) last_err w =
    (Ok document,
     mkWorld (net w) (S (sent w + length pre))
             (trace w ++ concat (failed_attempt url <$> pre) ++ [Request url])).
Proof.
  induction pre as [|j pre IH]; intros errs i post last_err w document Hlen Hnet Hok.
  - cbn [app length] in *. rewrite Nat.add_0_r in *.
    cbn. rewrite Hok. reflexivity.
  - destruct errs as [|e errs]; [discriminate|].
    injection Hlen as Hlen.
    destruct (Hnet 0%nat e eq_refl) as [Hre H0]. rewrite Nat.add_0_r in H0.
    cbn [app http_json_loop]. unfold urlopen_json. rewrite H0.
    set (w2 := sleep (backoff j)
                 (mkWorld (net w) (S (sent w)) (trace w ++ [Request url]))).
    assert (Hstep : http_json_loop url (pre ++ i :: post) (Some e) w2 =
                    (Ok document,
                     mkWorld (net w) (S (sent w + length (j :: pre)))
                       (trace w ++ concat (failed_attempt url <$> j :: pre)
                        ++ [Request url]))).
    { rewrite (IH errs i post (Some e) w2 document Hlen).
      - f_equal. cbn. rewrite <- !app_assoc. do 2 f_equal. lia.
      - intros k e' Hk. destruct (Hnet (S k) e' Hk) as [Hr Hn]. split; [assumption|].
        cbn. rewrite <- Hn. f_equal. lia.
      - cbn. rewrite <- Hok. f_equal. cbn. lia. }
    destruct e; cbn [retried] in Hre; try exact Hstep.
    rewrite Hre. exact Hstep.
Qed.

Lemma range_split (n : nat) attempts :
  (n < Z.to_nat attempts)%nat ->
  exists post, range attempts = (range (Z.of_nat n) ++ Z.of_nat n :: post)%list.
Proof.
  intros Hn. unfold range. rewrite Nat2Z.id.
  replace (Z.to_nat attempts) with (n + S (Z.to_nat attempts - S n))%nat by lia.
  rewrite seq_app, fmap_app. cbn [seq fmap list_fmap]. eauto.
Qed.

(** When the first attempts fail in a way the fetcher retries and the next
    one is answered, the fetcher returns that document: one request per
    attempt, a sleep of [1.5 ** i] after each failed one, none after the
    last. *)
Theorem http_json_retry_then_success url attempts w errs document :
  (length errs < Z.to_nat attempts)%nat ->
  (forall k e, errs !! k = Some e ->
               retried e = true /\ net w (sent w + k)%nat url = Fails e) ->
  net w (sent w + length errs)%nat url = Returns document ->
  http_json url attempts w =
  (Ok document,
   mkWorld (net w) (S (sent w + length errs))
     (trace w ++ concat (failed_attempt url <$> range (Z.of_nat (length errs)))
      ++ [Request url])).
Proof.
  intros Hlt Hnet Hok. unfold http_json.
  destruct (range_split (length errs) attempts Hlt) as [post ->].
  assert (Hl : length (range (Z.of_nat (length errs))) = length errs).
  { unfold range. rewrite length_fmap, length_seq, Nat2Z.id. reflexivity. }
  rewrite (http_json_loop_success url _ errs _ post None w document);
    rewrite ?Hl; auto.
Qed.

Lemma http_json_retry_then_success_witness :
  let w := scripted [Fails (HTTPError 503); Fails TimeoutError; Returns (PInt 7)]
                    (Fails (HTTPError 404)) in
  http_json "u" default_attempts w =
  (Ok (PInt 7),
   mkWorld (net w) 3
     [Request "u"; Sleep 1; Request "u"; Sleep (3 # 2); Request "u"]).
Proof.
  intros w.
  refine (http_json_retry_then_success "u" default_attempts w
            [HTTPError 503; TimeoutError] (PInt 7) _ _ _).
  - vm_compute. lia.
  - intros [|[|k]] e [= <-]; split; reflexivity.
  - reflexivity.
Defined.

Lemma http_json_loop_outcome url indices :
  forall last_err w r w',
    http_json_loop url indices last_err w = (r, w') ->
    net w' = net w /\
    (sent w <= sent w' <= sent w + length indices)%nat /\
    trace w `prefix_of` trace w' /\
    match r with
    | Ok document =>
        exists k, (k < length indices)%nat /\
                  net w (sent w + k)%nat url = Returns document
    | Raise e =>
        (indices = [] /\ Raise e = raise_last last_err) \/
        exists k, (k < length indices)%nat /\ net w (sent w + k)%nat url = Fails e
    end.
Proof.
  induction indices as [|i indices IH]; intros last_err w r w'.
  - cbn [http_json_loop]. unfold raise_last.
    destruct last_err; intros [= <- <-]; cbn [length];
      (split; [reflexivity|split; [lia|split; [reflexivity|left; split; reflexivity]]]).
  - cbn [http_json_loop]. unfold urlopen_json.
    destruct (net w (sent w) url) as [document|e] eqn:H0.
    + intros [= <- <-]. cbn [net sent trace length].
      split; [reflexivity|]. split; [lia|]. split; [apply prefix_app_r; reflexivity|].
      exists 0%nat. rewrite Nat.add_0_r. split; [lia|assumption].
    + set (w2 := sleep (backoff i)
                   (mkWorld (net w) (S (sent w)) (trace w ++ [Request url]))).
      assert (Hrec : http_json_loop url indices (Some e) w2 = (r, w') ->
                     net w' = net w /\
                     (sent w <= sent w' <= sent w + length (i :: indices))%nat /\
                     trace w `prefix_of` trace w' /\
                     match r with
                     | Ok document =>
                         exists k, (k < length (i :: indices))%nat /\
                                   net w (sent w + k)%nat url = Returns document
                     | Raise e' =>
                         (i :: indices = [] /\ Raise e' = raise_last last_err) \/
                         exists k, (k < length (i :: indices))%nat /\
                                   net w (sent w + k)%nat url = Fails e'
                     end).
      { intros H. apply IH in H as (Hn & Hs & Ht & Hr). cbn [length] in *.
        change (net w2) with (net w) in *. change (sent w2) with (S (sent w)) in *.
        split; [assumption|]. split; [lia|]. split.
        - etrans; [|exact Ht]. cbn. rewrite <- app_assoc. apply prefix_app_r. reflexivity.
        - destruct r as [document|e'].
          + destruct Hr as (k & Hk & Hd). exists (S k). split; [lia|].
            rewrite <- Hd. f_equal. lia.
          + right. destruct Hr as [[-> Hl]|(k & Hk & Hd)].
            * injection Hl as ->. exists 0%nat. rewrite Nat.add_0_r. split; [lia|assumption].
            * exists (S k). split; [lia|]. rewrite <- Hd. f_equal. lia. }
      destruct e; try exact Hrec.
      destruct (is_transient code) eqn:Ht; [exact Hrec|].
      intros [= <- <-]. cbn [net sent trace length].
      split; [reflexivity|]. split; [lia|]. split; [apply prefix_app_r; reflexivity|].
      right. exists 0%nat. rewrite Nat.add_0_r. split; [lia|assumption].
Qed.

(** Whatever the network does, the fetcher sends at most [attempts]
    requests, only adds to the trace, and hands over what the network gave:
    a returned document is the answer to one of its requests, and a raised
    error is the failure of one of them (or, with no attempt at all, the
    "unknown error"). *)
Theorem http_json_outcome url attempts w :
  let r := fst (http_json url attempts w) in
  let w' := snd (http_json url attempts w) in
  net w' = net w /\
  (sent w <= sent w' <= sent w + Z.to_nat attempts)%nat /\
  trace w `prefix_of` trace w' /\
  match r with
  | Ok document =>
      exists k, (k < Z.to_nat attempts)%nat /\
                net w (sent w + k)%nat url = Returns document
  | Raise e =>
      (attempts <= 0 /\ e = RuntimeError "http_json failed with unknown error") \/
      exists k, (k < Z.to_nat attempts)%nat /\ net w (sent w + k)%nat url = Fails e
  end.
Proof.
  intros r w'. subst r w'.
  destruct (http_json url attempts w) as [r w'] eqn:H. cbn [fst snd].
  unfold http_json in H. apply http_json_loop_outcome in H as (Hn & Hs & Ht & Hr).
  assert (Hl : length (range attempts) = Z.to_nat attempts).
  { unfold range. rewrite length_fmap, length_seq. reflexivity. }
  rewrite Hl in *. repeat (split; [assumption|]).
  destruct r as [document|e]; [assumption|].
  destruct Hr as [[Hnil He]|Hr]; [left|right; assumption].
  unfold raise_last in He. injection He as ->. split; [|reflexivity].
  destruct (Z.to_nat attempts) eqn:E; [lia|].
  rewrite Hnil in Hl. discriminate.
Qed.

(** ** Batch resolver: what a failing candidate does to the batch *)

Lemma wm_price_raises url_name w e w1 :
  http_json (WM_ITEM_STATS url_name) default_attempts w = (Raise e, w1) ->
  match e with HTTPError code => is_not_found code = false | _ => True end ->
  wm_price_from_statistics url_name w = (Raise e, w1).
Proof.
  intros H He. unfold wm_price_from_statistics. rewrite H.
  destruct e; try reflexivity. rewrite He. reflexivity.
Qed.

Lemma transient_not_not_found code : is_transient code = true -> is_not_found code = false.
Proof.
  intros H. destruct (is_not_found code) eqn:E; [|reflexivity].
  apply not_found_not_transient in E. congruence.
Qed.

(** When the four attempts for a candidate all end in a transient HTTP
    error, the item is given up for this run: the remaining candidates are
    not requested, the resolver sleeps 1.25 seconds, the item goes to
    [missing_items] and the batch goes on with the next item. *)
Theorem transient_candidate_gives_up
    item_name rest prices missing_items w c cs c0 c1 c2 c3 :
  wm_url_candidates item_name = c :: cs ->
  is_transient c0 = true -> is_transient c1 = true ->
  is_transient c2 = true -> is_transient c3 = true ->
  net w (sent w) (WM_ITEM_STATS c) = Fails (HTTPError c0) ->
  net w (sent w + 1)%nat (WM_ITEM_STATS c) = Fails (HTTPError c1) ->
  net w (sent w + 2)%nat (WM_ITEM_STATS c) = Fails (HTTPError c2) ->
  net w (sent w + 3)%nat (WM_ITEM_STATS c) = Fails (HTTPError c3) ->
  price_items (item_name :: rest) prices missing_items w =
  price_items rest prices (missing_items ++ [item_name])
    (mkWorld (net w) (sent w + 4)%nat
       (trace w ++ [Request (WM_ITEM_STATS c); Sleep (backoff 0);
                    Request (WM_ITEM_STATS c); Sleep (backoff 1);
                    Request (WM_ITEM_STATS c); Sleep (backoff 2);
                    Request (WM_ITEM_STATS c); Sleep (backoff 3);
                    Sleep (5 # 4); Sleep SLEEP_BETWEEN_WM_CALLS])).
Proof.
  intros Hc T0 T1 T2 T3 H0 H1 H2 H3.
  cbn [price_items]. rewrite Hc. cbn [try_candidates].
  rewrite (wm_price_raises c w (HTTPError c3) _
             (http_json_four_failures _ w (HTTPError c0) (HTTPError c1) (HTTPError c2)
                (HTTPError c3) T0 T1 T2 T3 H0 H1 H2 H3)
             (transient_not_not_found c3 T3)).
  rewrite T3. unfold sleep, log. cbn [net sent trace].
  rewrite <- !app_assoc. reflexivity.
Qed.

Lemma transient_candidate_gives_up_witness :
  let w := scripted [] (Fails (HTTPError 429)) in
  wm_url_candidates "Soma Prime Receiver" = ["soma_prime_receiver"; "soma_prime_reciever"] /\
  fst (build_prices_from_wm_statistics (one_reward "Soma Prime Receiver") w)
  = Ok (∅, ["Soma Prime Receiver"]) /\
  sent (snd (build_prices_from_wm_statistics (one_reward "Soma Prime Receiver") w)) = 4%nat.
Proof.
  intros w. split; [reflexivity|].
  assert (H : build_prices_from_wm_statistics (one_reward "Soma Prime Receiver") w
              = price_items [] ∅ [ "Soma Prime Receiver" ]
                  (mkWorld (net w) 4
                     ([Request (WM_ITEM_STATS "soma_prime_receiver"); Sleep (backoff 0);
                       Request (WM_ITEM_STATS "soma_prime_receiver"); Sleep (backoff 1);
                       Request (WM_ITEM_STATS "soma_prime_receiver"); Sleep (backoff 2);
                       Request (WM_ITEM_STATS "soma_prime_receiver"); Sleep (backoff 3);
                       Sleep (5 # 4); Sleep SLEEP_BETWEEN_WM_CALLS]))).
  { exact (transient_candidate_gives_up "Soma Prime Receiver" [] ∅ [] w
             "soma_prime_receiver" ["soma_prime_reciever"] 429 429 429 429
             eq_refl eq_refl eq_refl eq_refl eq_refl eq_refl eq_refl eq_refl eq_refl). }
  rewrite H. split; reflexivity.
Defined.

(** An HTTP error that is neither transient nor 404/403 (a 400 or 401, say)
    on a candidate ends the whole batch with that error after a single
    request; so does an error that is not an HTTP error and persists over
    the four attempts. Nothing is returned for the items priced before. *)
Theorem fatal_error_aborts_batch item_name rest prices missing_items w c cs :
  wm_url_candidates item_name = c :: cs ->
  (forall code,
      is_transient code = false -> is_not_found code = false ->
      net w (sent w) (WM_ITEM_STATS c) = Fails (HTTPError code) ->
      price_items (item_name :: rest) prices missing_items w =
      (Raise (HTTPError code),
       mkWorld (net w) (S (sent w)) (trace w ++ [Request (WM_ITEM_STATS c)]))) /\
  (forall e0 e1 e2 e3,
      is_http_error e0 = false -> is_http_error e1 = false ->
      is_http_error e2 = false -> is_http_error e3 = false ->
      net w (sent w) (WM_ITEM_STATS c) = Fails e0 ->
      net w (sent w + 1)%nat (WM_ITEM_STATS c) = Fails e1 ->
      net w (sent w + 2)%nat (WM_ITEM_STATS c) = Fails e2 ->
      net w (sent w + 3)%nat (WM_ITEM_STATS c) = Fails e3 ->
      fst (price_items (item_name :: rest) prices missing_items w) = Raise e3).
Proof.
  intros Hc. split.
  - intros code Ht Hn H0. cbn [price_items]. rewrite Hc. cbn [try_candidates].
    rewrite (wm_price_raises c w (HTTPError code) _
               (http_json_first_error (WM_ITEM_STATS c) default_attempts w code
                  eq_refl Ht H0) Hn).
    rewrite Ht. reflexivity.
  - intros e0 e1 e2 e3 N0 N1 N2 N3 H0 H1 H2 H3.
    assert (R : forall e, is_http_error e = false -> retried e = true)
      by (intros []; first [reflexivity|discriminate]).
    cbn [price_items]. rewrite Hc. cbn [try_candidates].
    rewrite (wm_price_raises c w e3 _
               (http_json_four_failures _ w e0 e1 e2 e3 (R _ N0) (R _ N1) (R _ N2) (R _ N3)
                  H0 H1 H2 H3)).
    + destruct e3; first [reflexivity|discriminate].
    + destruct e3; first [exact I|discriminate].
Qed.

Lemma fatal_error_aborts_batch_witness :
  fst (build_prices_from_wm_statistics (one_reward "Soma Prime Receiver")
         (scripted [Fails (HTTPError 401)] (Returns closed48_doc)))
  = Raise (HTTPError 401) /\
  fst (build_prices_from_wm_statistics (one_reward "Soma Prime Receiver")
         (scripted [] (Fails TimeoutError)))
  = Raise TimeoutError.
Proof.
  unfold build_prices_from_wm_statistics.
  change (unique_reward_items (one_reward "Soma Prime Receiver"))
    with ["Soma Prime Receiver"].
  split.
  - rewrite (proj1 (fatal_error_aborts_batch "Soma Prime Receiver" [] ∅ []
                      (scripted [Fails (HTTPError 401)] (Returns closed48_doc))
                      "soma_prime_receiver" ["soma_prime_reciever"] eq_refl)
               401 eq_refl eq_refl eq_refl).
    reflexivity.
  - exact (proj2 (fatal_error_aborts_batch "Soma Prime Receiver" [] ∅ []
                    (scripted [] (Fails TimeoutError))
                    "soma_prime_receiver" ["soma_prime_reciever"] eq_refl)
             TimeoutError TimeoutError TimeoutError TimeoutError
             eq_refl eq_refl eq_refl eq_refl eq_refl eq_refl eq_refl eq_refl).
Defined.

(** ** Batch resolver: a blocked or empty API *)

Lemma try_candidates_blocked candidates :
  forall w,
    blocked_from (sent w) w ->
    exists w', try_candidates candidates w = (Ok None, w') /\
               net w' = net w /\ (sent w <= sent w')%nat.
Proof.
  induction candidates as [|c cs IH]; intros w Hb; cbn [try_candidates].
  - exists w. auto.
  - destruct (Hb (sent w) (WM_ITEM_STATS c) (le_n _)) as (code & Hc & Hn).
    rewrite (wm_price_not_found c w code Hc Hn).
    destruct (IH (mkWorld (net w) (S (sent w)) (trace w ++ [Request (WM_ITEM_STATS c)])))
      as (w' & -> & Hnet & Hs).
    + intros k url Hk. apply Hb. cbn in Hk. lia.
    + exists w'. cbn in *. split; [reflexivity|]. split; [assumption|lia].
Qed.

Lemma price_items_blocked reward_items :
  forall prices missing_items w,
    blocked_from (sent w) w ->
    fst (price_items reward_items prices missing_items w)
    = Ok (prices, (missing_items ++ reward_items)%list).
Proof.
  induction reward_items as [|a reward_items IH]; intros prices missing_items w Hb;
    cbn [price_items].
  - rewrite app_nil_r. reflexivity.
  - destruct (try_candidates_blocked (wm_url_candidates a) w Hb) as (w' & -> & Hn & Hs).
    rewrite IH.
    + rewrite <- app_assoc. reflexivity.
    + intros k url Hk. cbn in *. rewrite Hn. apply Hb. lia.
Qed.

(** When the API answers every request with 404 or 403 (access blocked),
    the batch still completes: no item is priced, every item name is
    reported missing, in order; [main] then raises "Too few prices (0)". *)
Theorem blocked_api_fails_loudly build_relics_min w relics_min w1 :
  build_relics_min w = (Ok relics_min, w1) ->
  blocked_from (sent w1) w1 ->
  fst (build_prices_from_wm_statistics relics_min w1)
  = Ok (∅, unique_reward_items relics_min) /\
  fst (main build_relics_min w) = Raise (too_few_prices 0).
Proof.
  intros Hr Hb.
  assert (Hp : fst (build_prices_from_wm_statistics relics_min w1)
               = Ok (∅, unique_reward_items relics_min)).
  { unfold build_prices_from_wm_statistics. rewrite price_items_blocked by assumption.
    reflexivity. }
  split; [assumption|].
  unfold main. rewrite Hr.
  destruct (build_prices_from_wm_statistics relics_min w1) as [r w2].
  cbn [fst] in Hp. subst r. reflexivity.
Qed.

Lemma blocked_api_fails_loudly_witness :
  let w := scripted [] (Fails (HTTPError 403)) in
  fst (build_prices_from_wm_statistics small_catalog w)
  = Ok (∅, ["Item 0"; "Item 1"; "Soma Prime Receiver"]) /\
  fst (main (fixed_catalog small_catalog) w) = Raise (too_few_prices 0).
Proof.
  intros w.
  refine (blocked_api_fails_loudly (fixed_catalog small_catalog) w small_catalog w
            eq_refl _).
  intros k url _. exists 403. split; [reflexivity|]. destruct k; reflexivity.
Defined.

(** ** Batch resolver: order and accounting *)

Lemma sorted_StronglySorted (s : gset string) : StronglySorted String.le (sorted s).
Proof. unfold sorted. apply StronglySorted_merge_sort; apply _. Qed.

Lemma sorted_unique (l : list string) (s : gset string) :
  StronglySorted String.le l -> NoDup l -> (forall x, x ∈ l <-> x ∈ s) -> sorted s = l.
Proof.
  intros Hl Hnd Hel. apply (StronglySorted_unique String.le).
  - apply sorted_StronglySorted.
  - assumption.
  - apply NoDup_Permutation; [apply sorted_NoDup|assumption|].
    intros x. rewrite sorted_elem_of, Hel. reflexivity.
Qed.

Lemma StronglySorted_sublist (l1 l2 : list string) :
  l1 `sublist_of` l2 -> StronglySorted String.le l2 -> StronglySorted String.le l1.
Proof.
  induction 1 as [|x l1 l2 Hsub IH|x l1 l2 Hsub IH]; intros Hs.
  - constructor.
  - apply StronglySorted_inv in Hs as [Hs Hx]. constructor; [auto|].
    apply Forall_forall. intros y Hy.
    apply (proj1 (Forall_forall _ _) Hx). apply (sublist_subseteq _ _ Hsub). assumption.
  - apply StronglySorted_inv in Hs as [Hs _]. auto.
Qed.

(** The item names come out in ascending order without repetition, and the
    list depends only on which names the catalog holds: two catalogs with
    the same reward names give the same list, whatever their order. *)
Theorem unique_reward_items_order relics_min :
  StronglySorted String.le (unique_reward_items relics_min) /\
  NoDup (unique_reward_items relics_min) /\
  forall relics_min',
    (forall x, reward_item relics_min x <-> reward_item relics_min' x) ->
    unique_reward_items relics_min' = unique_reward_items relics_min.
Proof.
  destruct (unique_reward_items_spec relics_min) as [Hnd Hspec].
  assert (Hs : StronglySorted String.le (unique_reward_items relics_min))
    by apply sorted_StronglySorted.
  split; [assumption|]. split; [assumption|].
  intros relics' Hsame. destruct (unique_reward_items_spec relics') as [Hnd' Hspec'].
  apply (StronglySorted_unique String.le);
    [apply sorted_StronglySorted|assumption|].
  apply NoDup_Permutation; [assumption..|].
  intros x. rewrite Hspec, Hspec', Hsame. reflexivity.
Qed.

Lemma unique_reward_items_order_witness :
  unique_reward_items (numbered_rewards 2 ++ one_reward "Soma Prime Receiver")
  = unique_reward_items small_catalog.
Proof.
  apply (proj2 (proj2 (unique_reward_items_order small_catalog))).
  intros x. unfold reward_item, small_catalog. set_solver.
Defined.

Lemma price_items_accounting reward_items :
  forall prices missing_items w prices' missing_items' w',
    price_items reward_items prices missing_items w = (Ok (prices', missing_items'), w') ->
    (exists ms, missing_items' = (missing_items ++ ms)%list /\ ms `sublist_of` reward_items) /\
    (NoDup reward_items ->
     (forall x, x ∈ reward_items -> prices !! x = None) ->
     (size prices' + length missing_items'
      = size prices + length missing_items + length reward_items)%nat).
Proof.
  induction reward_items as [|a reward_items IH];
    intros prices missing_items w prices' missing_items' w'; cbn [price_items].
  - intros [= <- <- <-]. split.
    + exists []. rewrite app_nil_r. split; [reflexivity|constructor].
    + intros _ _. cbn. lia.
  - destruct (try_candidates (wm_url_candidates a) w) as [[[p|]|e] w1]; [| |discriminate].
    + intros H. apply IH in H as [(ms & -> & Hsub) Hcount]. split.
      * exists ms. split; [reflexivity|]. constructor. assumption.
      * intros Hnd Hfresh. apply NoDup_cons in Hnd as [Ha Hnd].
        rewrite Hcount; [|assumption|].
        -- rewrite map_size_insert_None by (apply Hfresh; left). cbn. lia.
        -- intros x Hx. rewrite lookup_insert_ne by (intros ->; contradiction).
           apply Hfresh. right. assumption.
    + intros H. apply IH in H as [(ms & -> & Hsub) Hcount]. split.
      * exists (a :: ms). rewrite <- app_assoc. split; [reflexivity|].
        constructor. assumption.
      * intros Hnd Hfresh. apply NoDup_cons in Hnd as [Ha Hnd].
        rewrite Hcount; [|assumption|].
        -- rewrite length_app. cbn. lia.
        -- intros x Hx. apply Hfresh. right. assumption.
Qed.

(** When the batch returns, priced and missing items add up to the number
    of distinct item names, as the closing line of the log reports. *)
Theorem build_prices_accounting relics_min w prices missing_items w' :
  build_prices_from_wm_statistics relics_min w = (Ok (prices, missing_items), w') ->
  (size prices + length missing_items = length (unique_reward_items relics_min))%nat.
Proof.
  intros H. apply price_items_accounting in H as [_ Hcount].
  rewrite Hcount; [rewrite map_size_empty; reflexivity|apply sorted_NoDup|].
  intros x _. apply lookup_empty.
Qed.

Lemma build_prices_accounting_witness :
  let w := scripted [Fails (HTTPError 404); Returns closed48_doc] (Fails (HTTPError 403)) in
  match fst (build_prices_from_wm_statistics small_catalog w) with
  | Ok (prices, missing_items) => (size prices + length missing_items = 3)%nat
  | Raise _ => False
  end.
Proof.
  intros w.
  assert (Hok : match fst (build_prices_from_wm_statistics small_catalog w) with
                | Ok _ => True
                | Raise _ => False
                end) by (vm_compute; exact I).
  destruct (build_prices_from_wm_statistics small_catalog w)
    as [[[prices missing_items]|e] w'] eqn:E; cbn [fst] in *; [|assumption].
  exact (build_prices_accounting small_catalog w prices missing_items w' E).
Defined.

(** When the batch returns, [missing_items] lists the missing names in the
    order of the item list, so in ascending order and without repetition;
    sorting them again for the two debug files changes nothing, and both
    files hold exactly [missing_items]. *)
Theorem missing_items_in_order relics_min w prices missing_items w' :
  build_prices_from_wm_statistics relics_min w = (Ok (prices, missing_items), w') ->
  missing_items `sublist_of` unique_reward_items relics_min /\
  StronglySorted String.le missing_items /\
  NoDup missing_items /\
  forall w2,
    write_missing_debug missing_items w2 =
    log (WriteFile MISSING_JSON (NamesJson missing_items))
      (log (WriteFile MISSING_TXT (NamesText missing_items)) w2).
Proof.
  intros H. apply price_items_accounting in H as [(ms & -> & Hsub) _].
  cbn [app].
  assert (Hs : StronglySorted String.le ms)
    by (apply (StronglySorted_sublist _ _ Hsub), sorted_StronglySorted).
  assert (Hnd : NoDup ms)
    by (eapply sublist_NoDup; [apply sorted_NoDup|exact Hsub]).
  repeat (split; [assumption|]).
  intros w2. unfold write_missing_debug.
  rewrite (sorted_unique ms); [reflexivity|assumption..|].
  intros x. rewrite elem_of_list_to_set. reflexivity.
Qed.

Lemma missing_items_in_order_witness :
  let w := scripted [Fails (HTTPError 404); Returns closed48_doc] (Fails (HTTPError 403)) in
  match fst (build_prices_from_wm_statistics small_catalog w) with
  | Ok (_, missing_items) =>
      missing_items `sublist_of` unique_reward_items small_catalog
  | Raise _ => False
  end.
Proof.
  intros w.
  assert (Hok : match fst (build_prices_from_wm_statistics small_catalog w) with
                | Ok _ => True
                | Raise _ => False
                end) by (vm_compute; exact I).
  destruct (build_prices_from_wm_statistics small_catalog w)
    as [[[prices missing_items]|e] w'] eqn:E; cbn [fst] in *; [|assumption].
  exact (proj1 (missing_items_in_order small_catalog w prices missing_items w' E)).
Defined.

(** ** Output files *)

(** Both debug files get the same list of names: the names of
    [missing_items], each once, in ascending order; nothing else in the
    world changes. *)
Theorem write_missing_debug_content missing_items w :
  exists names,
    write_missing_debug missing_items w =
    mkWorld (net w) (sent w)
      (trace w ++ [WriteFile MISSING_TXT (NamesText names);
                   WriteFile MISSING_JSON (NamesJson names)]) /\
    StronglySorted String.le names /\
    NoDup names /\
    forall x, x ∈ names <-> x ∈ missing_items.
Proof.
  exists (sorted (list_to_set missing_items)). split.
  - unfold write_missing_debug, log. cbn [net sent trace].
    rewrite <- app_assoc. reflexivity.
  - split; [apply sorted_StronglySorted|]. split; [apply sorted_NoDup|].
    intros x. rewrite sorted_elem_of, elem_of_list_to_set. reflexivity.
Qed.



Lemma main_writes_first_witness :
  let w := scripted [Fails (HTTPError 404); Returns closed48_doc] (Fails (HTTPError 403)) in
  fst (main (fixed_catalog small_catalog) w) = Raise (too_few_prices 1) /\
  exists w2,
    snd (main (fixed_catalog small_catalog) w) =
    write_missing_debug ["Item 0"; "Soma Prime Receiver"]
      (log (WriteFile PRICES_OUT (PricesJson {["Item 1" := 50]})) w2).
Proof.
  intros w. split; [vm_compute; reflexivity|].
  assert (H : fst (build_prices_from_wm_statistics small_catalog w)
              = Ok ({["Item 1" := 50]}, ["Item 0"; "Soma Prime Receiver"]))
    by (vm_compute; reflexivity).
  destruct (build_prices_from_wm_statistics small_catalog w) as [r w2] eqn:E.
  cbn [fst] in H. subst r. exists w2.
  exact (main_writes_first (fixed_catalog small_catalog) w small_catalog w _ _ w2
           eq_refl E).
Defined.

(** ** Slug deriver: the shape of a slug *)

Lemma str_app_cons c s t : String c s +:+ t = String c (s +:+ t).
Proof. reflexivity. Qed.

Lemma str_app_nil_r s : s +:+ "" = s.
Proof. induction s as [|c s IH]; [reflexivity|]. rewrite str_app_cons, IH. reflexivity. Qed.

Lemma str_app_assoc a b c : (a +:+ b) +:+ c = a +:+ (b +:+ c).
Proof.
  induction a as [|x a IH]; [reflexivity|]. rewrite !str_app_cons, IH. reflexivity.
Qed.

Lemma rev_app_spec s1 s2 : String.rev_app s1 s2 = String.rev s1 +:+ s2.
Proof.
  unfold String.rev. revert s2. induction s1 as [|c s1 IH]; intros s2; [reflexivity|].
  cbn [String.rev_app]. rewrite (IH (String c s2)), (IH (String c "")), str_app_assoc.
  reflexivity.
Qed.

Lemma rev_cons c s : String.rev (String c s) = String.rev s +:+ String c "".
Proof. unfold String.rev at 1. cbn [String.rev_app]. apply rev_app_spec. Qed.

Lemma rev_app_distr a b : String.rev (a +:+ b) = String.rev b +:+ String.rev a.
Proof.
  induction a as [|c a IH]; [symmetry; apply str_app_nil_r|].
  rewrite str_app_cons, !rev_cons, IH, str_app_assoc. reflexivity.
Qed.

Lemma rev_involutive s : String.rev (String.rev s) = s.
Proof.
  induction s as [|c s IH]; [reflexivity|].
  rewrite rev_cons, rev_app_distr, IH. reflexivity.
Qed.

Lemma lstrip_app p a b :
  FloatParse.lstrip p (a +:+ b)
  = if all_chars p a then FloatParse.lstrip p b else FloatParse.lstrip p a +:+ b.
Proof.
  induction a as [|c a IH]; [reflexivity|].
  rewrite str_app_cons. cbn [FloatParse.lstrip all_chars].
  destruct (p c); [exact IH|reflexivity].
Qed.

Lemma rstrip_cons p c s :
  PyStr.rstrip p (String c s)
  = if all_chars p s then (if p c then "" else String c "")
    else String c (PyStr.rstrip p s).
Proof.
  unfold PyStr.rstrip. rewrite rev_cons, lstrip_app, all_chars_rev.
  destruct (all_chars p s).
  - cbn [FloatParse.lstrip]. destruct (p c); reflexivity.
  - rewrite rev_app_distr. reflexivity.
Qed.

Lemma lstrip_decompose p s :
  exists a, s = a +:+ FloatParse.lstrip p s /\ all_chars p a = true.
Proof.
  induction s as [|c s (a & Hs & Ha)]; [exists ""; auto|].
  cbn [FloatParse.lstrip]. destruct (p c) eqn:Hc.
  - exists (String c a). rewrite str_app_cons, <- Hs. cbn. rewrite Hc, Ha. auto.
  - exists "". auto.
Qed.

Lemma rstrip_decompose p s :
  exists b, s = PyStr.rstrip p s +:+ b /\ all_chars p b = true.
Proof.
  induction s as [|c s (b & Hs & Hb)]; [exists ""; auto|].
  rewrite rstrip_cons. destruct (all_chars p s) eqn:Hall.
  - destruct (p c) eqn:Hc.
    + exists (String c s). cbn. rewrite Hc, Hall. auto.
    + exists s. auto.
  - exists b. rewrite str_app_cons, <- Hs. auto.
Qed.

Lemma strip_decompose p s :
  exists a b, s = a +:+ PyStr.strip p s +:+ b /\
              all_chars p a = true /\ all_chars p b = true.
Proof.
  unfold PyStr.strip.
  destruct (lstrip_decompose p s) as (a & Hs & Ha).
  destruct (rstrip_decompose p (FloatParse.lstrip p s)) as (b & Hr & Hb).
  exists a, b. rewrite <- Hr. auto.
Qed.

Lemma all_chars_sub_runs p cls rep s in_run :
  all_chars (fun c => cls c || p c) s = true ->
  all_chars p rep = true ->
  all_chars p (PyStr.sub_runs cls rep s in_run) = true.
Proof.
  intros Hs Hrep. revert in_run.
  induction s as [|c s IH]; intros in_run; [reflexivity|].
  cbn [all_chars] in Hs. apply andb_true_iff in Hs as [Hc Hs].
  cbn [PyStr.sub_runs]. destruct (cls c).
  - destruct in_run; [apply IH; assumption|].
    rewrite all_chars_app, Hrep. apply IH. assumption.
  - cbn [all_chars]. cbn in Hc. rewrite Hc. apply IH. assumption.
Qed.

Lemma all_chars_true p s : (forall c, p c = true) -> all_chars p s = true.
Proof. intros H. induction s as [|c s IH]; [reflexivity|]. cbn. rewrite H, IH. reflexivity. Qed.

Lemma prefix_underscore c s :
  is_underscore c = false -> String.prefix "_" (String c s) = false.
Proof.
  intros Hc. cbn [String.prefix].
  destruct (ascii_dec "_" c) as [<-|]; [discriminate|reflexivity].
Qed.

Lemma lstrip_head p s :
  match FloatParse.lstrip p s with
  | String c _ => p c = false
  | EmptyString => True
  end.
Proof.
  induction s as [|c s IH]; [exact I|].
  cbn [FloatParse.lstrip]. destruct (p c) eqn:Hc; assumption.
Qed.

Lemma strip_head p s :
  match PyStr.strip p s with
  | String c _ => p c = false
  | EmptyString => True
  end.
Proof.
  unfold PyStr.strip. pose proof (lstrip_head p s) as H.
  destruct (FloatParse.lstrip p s) as [|c r]; [exact I|].
  rewrite rstrip_cons, H. destruct (all_chars p r); assumption.
Qed.

Lemma strip_last p s :
  match String.rev (PyStr.strip p s) with
  | String c _ => p c = false
  | EmptyString => True
  end.
Proof.
  unfold PyStr.strip, PyStr.rstrip. rewrite rev_involutive. apply lstrip_head.
Qed.

Lemma prefix_app_r_str sub t b :
  String.prefix sub t = true -> String.prefix sub (t +:+ b) = true.
Proof.
  revert sub. induction t as [|c t IH]; intros sub.
  - destruct sub; [|discriminate]. intros _. destruct b; reflexivity.
  - destruct sub as [|x sub]; [reflexivity|].
    rewrite str_app_cons. cbn [String.prefix].
    destruct (ascii_dec x c); [apply IH|discriminate].
Qed.

Lemma contains_app_l sub a t :
  PyStr.contains sub t = true -> PyStr.contains sub (a +:+ t) = true.
Proof.
  intros H. induction a as [|c a IH]; [assumption|].
  rewrite str_app_cons. cbn [PyStr.contains]. rewrite IH. apply orb_true_r.
Qed.

Lemma contains_app_r sub t b :
  PyStr.contains sub t = true -> PyStr.contains sub (t +:+ b) = true.
Proof.
  induction t as [|c t IH].
  - cbn [PyStr.contains]. rewrite orb_false_r. intros H.
    change ("" +:+ b) with b. destruct sub; [|discriminate].
    destruct b; reflexivity.
  - rewrite str_app_cons. cbn [PyStr.contains].
    intros [H|H]%orb_true_iff.
    + rewrite <- str_app_cons, (prefix_app_r_str _ _ b H). reflexivity.
    + rewrite (IH H). apply orb_true_r.
Qed.

Lemma contains_strip sub p s :
  PyStr.contains sub s = false -> PyStr.contains sub (PyStr.strip p s) = false.
Proof.
  intros H. destruct (strip_decompose p s) as (a & b & Hs & _ & _).
  destruct (PyStr.contains sub (PyStr.strip p s)) eqn:E; [|reflexivity].
  rewrite Hs in H. rewrite contains_app_l in H; [discriminate|].
  apply contains_app_r. assumption.
Qed.

Lemma sub_runs_no_double cls s in_run :
  (forall c, cls c = false -> is_underscore c = false) ->
  PyStr.contains "__" (PyStr.sub_runs cls "_" s in_run) = false /\
  (in_run = true -> String.prefix "_" (PyStr.sub_runs cls "_" s in_run) = false).
Proof.
  intros Hcls. revert in_run. induction s as [|c s IH]; intros in_run.
  - split; [reflexivity|]. intros _. reflexivity.
  - cbn [PyStr.sub_runs]. destruct (cls c) eqn:Hc.
    + destruct in_run; [apply IH|].
      destruct (IH true) as [H1 H2]. split; [|discriminate].
      change ("_" +:+ PyStr.sub_runs cls "_" s true)
        with (String "_" (PyStr.sub_runs cls "_" s true)).
      cbn [PyStr.contains String.prefix]. rewrite H1.
      destruct (ascii_dec "_" "_"); [|congruence].
      rewrite (H2 eq_refl). reflexivity.
    + destruct (IH false) as [H1 _]. split.
      * cbn [PyStr.contains String.prefix]. rewrite H1.
        destruct (ascii_dec "_" c) as [<-|]; [|reflexivity].
        specialize (Hcls _ Hc). discriminate.
      * intros _. apply prefix_underscore, Hcls, Hc.
Qed.

Lemma guess_all_slug_chars item_name :
  all_chars slug_char (guess_wm_url_name item_name) = true.
Proof.
  unfold guess_wm_url_name, PyStr.re_sub_runs.
  rewrite all_chars_strip
    by (intros c Hc; unfold slug_char; rewrite Hc; apply orb_true_r).
  apply all_chars_sub_runs; [|reflexivity].
  erewrite all_chars_ext
    by (intros c; unfold slug_char;
        instantiate (1 := slug_char); unfold slug_char;
        destruct (is_underscore c), (not_slug_char c); reflexivity).
  apply all_chars_sub_runs; [|reflexivity].
  apply all_chars_true. intros c. unfold slug_char.
  destruct (not_slug_char c); reflexivity.
Qed.

Lemma guess_no_leading_underscore item_name :
  String.prefix "_" (guess_wm_url_name item_name) = false.
Proof.
  unfold guess_wm_url_name.
  match goal with |- context [PyStr.strip is_underscore ?x] =>
    pose proof (strip_head is_underscore x) as H;
    destruct (PyStr.strip is_underscore x) as [|c r]; [reflexivity|]
  end.
  apply prefix_underscore. assumption.
Qed.

Lemma guess_no_trailing_underscore item_name :
  PyStr.endswith (guess_wm_url_name item_name) "_" = false.
Proof.
  unfold guess_wm_url_name, PyStr.endswith.
  match goal with |- context [PyStr.strip is_underscore ?x] =>
    pose proof (strip_last is_underscore x) as H;
    destruct (String.rev (PyStr.strip is_underscore x)) as [|c r]; [reflexivity|]
  end.
  apply prefix_underscore. assumption.
Qed.

Lemma guess_no_double_underscore item_name :
  PyStr.contains "__" (guess_wm_url_name item_name) = false.
Proof.
  unfold guess_wm_url_name, PyStr.re_sub_runs.
  apply contains_strip. apply sub_runs_no_double. auto.
Qed.

(** The derived slug is made of [a-z], [0-9] and [_] only; it neither
    starts nor ends with an underscore and never has two underscores in a
    row. *)
Theorem guess_wm_url_name_shape item_name :
  let s := guess_wm_url_name item_name in
  all_chars slug_char s = true /\
  String.prefix "_" s = false /\
  PyStr.endswith s "_" = false /\
  PyStr.contains "__" s = false.
Proof.
  intros s. subst s. split; [|split; [|split]].
  - apply guess_all_slug_chars.
  - apply guess_no_leading_underscore.
  - apply guess_no_trailing_underscore.
  - apply guess_no_double_underscore.
Qed.

Lemma lstrip_id p s :
  match s with String c _ => p c = false | EmptyString => True end ->
  FloatParse.lstrip p s = s.
Proof. destruct s as [|c s]; [reflexivity|]. cbn. intros ->. reflexivity. Qed.

Lemma strip_id p s :
  match s with String c _ => p c = false | EmptyString => True end ->
  match String.rev s with String c _ => p c = false | EmptyString => True end ->
  PyStr.strip p s = s.
Proof.
  intros Hh Hl. unfold PyStr.strip, PyStr.rstrip.
  rewrite (lstrip_id p s Hh), (lstrip_id p _ Hl). apply rev_involutive.
Qed.

Lemma all_chars_head p s :
  all_chars p s = true -> match s with String c _ => p c = true | EmptyString => True end.
Proof. destruct s as [|c s]; [auto|]. cbn. intros [H _]%andb_true_iff. assumption. Qed.

Lemma strip_id_all p q s :
  all_chars q s = true -> (forall c, q c = true -> p c = false) -> PyStr.strip p s = s.
Proof.
  intros Hs Hq. apply strip_id.
  - pose proof (all_chars_head q s Hs) as H. destruct s; auto.
  - assert (Hr : all_chars q (String.rev s) = true) by (rewrite all_chars_rev; assumption).
    pose proof (all_chars_head q _ Hr) as H. destruct (String.rev s); auto.
Qed.

Lemma map_string_id f q s :
  all_chars q s = true -> (forall c, q c = true -> f c = c) ->
  FloatParse.map_string f s = s.
Proof.
  intros Hs Hq. induction s as [|c s IH]; [reflexivity|].
  cbn in Hs. apply andb_true_iff in Hs as [Hc Hs].
  cbn. rewrite (Hq c Hc), IH by assumption. reflexivity.
Qed.

Lemma replace_amp_id s :
  all_chars slug_char s = true -> PyStr.replace "&" "and" s = s.
Proof.
  unfold PyStr.replace. induction s as [|c s IH]; [reflexivity|].
  cbn [all_chars]. intros [Hc Hs]%andb_true_iff.
  cbn [PyStr.replace_go String.prefix].
  destruct (ascii_dec "&" c) as [<-|_]; [discriminate|].
  rewrite IH by assumption. reflexivity.
Qed.

Lemma sub_runs_id cls s in_run :
  all_chars (fun c => Bool.eqb (cls c) (is_underscore c)) s = true ->
  PyStr.contains "__" s = false ->
  (in_run = true -> String.prefix "_" s = false) ->
  PyStr.sub_runs cls "_" s in_run = s.
Proof.
  revert in_run. induction s as [|c s IH]; intros in_run Hcls Hdd Hrun; [reflexivity|].
  cbn [all_chars] in Hcls. apply andb_true_iff in Hcls as [Hc Hcls].
  apply Bool.eqb_prop in Hc.
  cbn [PyStr.contains] in Hdd. apply orb_false_iff in Hdd as [Hpre Hdd].
  cbn [PyStr.sub_runs]. rewrite Hc.
  destruct (is_underscore c) eqn:Hu.
  - apply Ascii.eqb_eq in Hu as ->.
    assert (Hnext : String.prefix "_" s = false).
    { cbn [String.prefix] in Hpre. destruct (ascii_dec "_" "_"); [|congruence].
      destruct s as [|d s]; [reflexivity|]. exact Hpre. }
    destruct in_run.
    + specialize (Hrun eq_refl). cbn [String.prefix] in Hrun.
      destruct (ascii_dec "_" "_"); [|congruence]. destruct s; discriminate.
    + rewrite (IH true) by auto. reflexivity.
  - rewrite (IH false); auto. discriminate.
Qed.

(** A slug is a fixed point of the deriver: deriving the slug of a derived
    slug changes nothing. *)
Theorem guess_wm_url_name_idempotent item_name :
  guess_wm_url_name (guess_wm_url_name item_name) = guess_wm_url_name item_name.
Proof.
  pose proof (guess_all_slug_chars item_name) as Hall.
  pose proof (guess_no_leading_underscore item_name) as Hhead.
  pose proof (guess_no_trailing_underscore item_name) as Hlast.
  pose proof (guess_no_double_underscore item_name) as Hdd.
  set (s := guess_wm_url_name item_name) in *.
  unfold guess_wm_url_name at 1. unfold PyStr.lower, PyStr.re_sub_runs.
  rewrite (strip_id_all PyStr.isspace slug_char s Hall)
    by (intros [[] [] [] [] [] [] [] []]; vm_compute; congruence).
  rewrite (map_string_id PyStr.lower_char slug_char s Hall)
    by (intros [[] [] [] [] [] [] [] []]; vm_compute; congruence).
  rewrite (replace_amp_id s Hall).
  rewrite (sub_runs_id not_slug_char s false); [|
    | assumption | discriminate ].
  - rewrite (sub_runs_id is_underscore s false); [|
      | assumption | discriminate ].
    + apply strip_id.
      * destruct s as [|c r]; [exact I|].
        cbn [String.prefix] in Hhead. unfold is_underscore.
        destruct (ascii_dec "_" c) as [<-|Hne]; [destruct r; discriminate|].
        apply Ascii.eqb_neq. congruence.
      * unfold PyStr.endswith in Hlast.
        destruct (String.rev s) as [|c r]; [exact I|].
        change (String.rev "_") with "_" in Hlast.
        cbn [String.prefix] in Hlast. unfold is_underscore.
        destruct (ascii_dec "_" c) as [<-|Hne]; [destruct r; discriminate|].
        apply Ascii.eqb_neq. congruence.
    + apply all_chars_true. intros c. destruct (is_underscore c); reflexivity.
  - erewrite all_chars_ext; [exact Hall|].
    intros [[] [] [] [] [] [] [] []]; vm_compute; reflexivity.
Qed.

(** ** Slug deriver: the candidate list *)

Lemma dedupe_spec cands :
  forall seen : gset string,
    NoDup (dedupe cands seen) /\
    (forall x, x ∈ dedupe cands seen <-> x ∈ cands /\ x <> "" /\ x ∉ seen) /\
    (length (dedupe cands seen) <= length cands)%nat.
Proof.
  induction cands as [|c cands IH]; intros seen; cbn [dedupe].
  - split; [constructor|]. split; [|reflexivity].
    intros x. split; [intros H; destruct (not_elem_of_nil x H)|].
    intros [H _]. destruct (not_elem_of_nil x H).
  - destruct (String.eqb_spec c "") as [->|Hne]; cbn [negb andb].
    + destruct (IH seen) as (Hnd & Hel & Hlen).
      split; [assumption|]. split; [|cbn; lia].
      intros x. rewrite Hel, elem_of_cons. split; [tauto|].
      intros [[->|H] [Hx Hs]]; [congruence|tauto].
    + destruct (bool_decide_reflect (c ∈ seen)) as [Hin|Hnin]; cbn [negb].
      * destruct (IH seen) as (Hnd & Hel & Hlen).
        split; [assumption|]. split; [|cbn; lia].
        intros x. rewrite Hel, elem_of_cons. split; [tauto|].
        intros [[->|H] [Hx Hs]]; [contradiction|tauto].
      * destruct (IH ({[c]} ∪ seen)) as (Hnd & Hel & Hlen).
        split; [|split; [|cbn; lia]].
        -- constructor; [|assumption]. rewrite Hel. set_solver.
        -- intros x. rewrite !elem_of_cons, Hel. split.
           ++ intros [->|(H1 & H2 & H3)]; [tauto|]. set_solver.
           ++ intros [[->|H1] [H2 H3]]; [tauto|].
              destruct (decide (x = c)) as [->|Hxc]; [tauto|]. right. set_solver.
Qed.

Lemma all_chars_substring p n s :
  all_chars p s = true -> all_chars p (String.substring 0 n s) = true.
Proof.
  revert n. induction s as [|c s IH]; intros n Hs.
  - destruct n; reflexivity.
  - cbn in Hs. apply andb_true_iff in Hs as [Hc Hs].
    destruct n; [reflexivity|]. cbn. rewrite Hc. apply IH. assumption.
Qed.

Lemma all_chars_replace p old new s skip :
  all_chars p s = true -> all_chars p new = true ->
  all_chars p (PyStr.replace_go old new s skip) = true.
Proof.
  intros Hs Hnew. revert skip. induction s as [|c s IH]; intros skip; [reflexivity|].
  cbn in Hs. apply andb_true_iff in Hs as [Hc Hs].
  cbn [PyStr.replace_go]. destruct skip; [|apply IH; assumption].
  destruct (String.prefix old (String c s)).
  - rewrite all_chars_app, Hnew. apply IH. assumption.
  - cbn [all_chars]. rewrite Hc. apply IH. assumption.
Qed.

Lemma quote_slug s : all_chars slug_char s = true -> PyStr.quote s = s.
Proof.
  induction s as [|c s IH]; [reflexivity|].
  cbn [all_chars]. intros [Hc Hs]%andb_true_iff. cbn [PyStr.quote].
  replace (PyStr.quote_safe c) with true.
  - rewrite (IH Hs). reflexivity.
  - revert Hc. destruct c as [[] [] [] [] [] [] [] []]; vm_compute; congruence.
Qed.

(** The candidates are distinct and non-empty, there are at most three of
    them, and each is made of [a-z], [0-9] and [_] only, so that quoting
    leaves it as it is and the URL requested for it is
    [.../items/<candidate>/statistics]. *)
Theorem wm_url_candidates_shape item_name :
  NoDup (wm_url_candidates item_name) /\
  (length (wm_url_candidates item_name) <= 3)%nat /\
  forall c, c ∈ wm_url_candidates item_name ->
            c <> "" /\
            all_chars slug_char c = true /\
            WM_ITEM_STATS c = WM_BASE +:+ "/items/" +:+ c +:+ "/statistics".
Proof.
  pose proof (guess_all_slug_chars item_name) as Hall.
  unfold wm_url_candidates, WM_URL_OVERRIDES. rewrite lookup_empty.
  set (base := guess_wm_url_name item_name) in *.
  set (v1 := PyStr.drop_last (String.length "_receiver") base +:+ "_reciever").
  set (v2 := PyStr.replace "_receiver_" "_reciever_" base).
  assert (H1 : all_chars slug_char v1 = true).
  { unfold v1, PyStr.drop_last. rewrite all_chars_app, all_chars_substring by assumption.
    reflexivity. }
  assert (H2 : all_chars slug_char v2 = true)
    by (apply all_chars_replace; [assumption|reflexivity]).
  set (cands := if PyStr.contains "_receiver_" base then _ else _).
  assert (Hc : (length cands <= 3)%nat /\
               forall c, c ∈ cands -> all_chars slug_char c = true).
  { assert (Hcases : (length cands <= 3)%nat /\
                     forall c, c ∈ cands -> c = base \/ c = v1 \/ c = v2).
    { unfold cands.
      destruct (PyStr.endswith base "_receiver"), (PyStr.contains "_receiver_" base);
        (split; [cbn; lia|set_solver]). }
    destruct Hcases as [Hlen Hcases]. split; [assumption|].
    intros c Hin. destruct (Hcases c Hin) as [->|[->| ->]]; assumption. }
  destruct Hc as [Hlen Hslug].
  destruct (dedupe_spec cands ∅) as (Hnd & Hel & Hl).
  split; [assumption|]. split; [lia|].
  intros c Hin. apply Hel in Hin as (Hin & Hne & _).
  split; [assumption|]. split; [auto|].
  unfold WM_ITEM_STATS. rewrite quote_slug by auto. reflexivity.
Qed.

Lemma wm_url_candidates_shape_witness :
  let cands := wm_url_candidates "Axi A1 & Receiver Blueprint Receiver" in
  cands = ["axi_a1_and_receiver_blueprint_receiver";
           "axi_a1_and_receiver_blueprint_reciever";
           "axi_a1_and_reciever_blueprint_receiver"] /\
  WM_ITEM_STATS "axi_a1_and_receiver_blueprint_reciever"
  = WM_BASE +:+ "/items/" +:+ "axi_a1_and_receiver_blueprint_reciever" +:+ "/statistics".
Proof.
  intros cands. split; [reflexivity|].
  apply (proj2 (proj2 (wm_url_candidates_shape "Axi A1 & Receiver Blueprint Receiver"))).
  right. left.
Defined.

(** ** Price extractor: integer medians and earlier records *)

Lemma digits2_pos_size m : digits2_pos m = Pos.size m.
Proof. induction m as [m IH|m IH|]; cbn; congruence. Qed.

Lemma digits2_pos_lower m : 2 ^ Zpos (digits2_pos m) <= 2 * Zpos m.
Proof.
  rewrite digits2_pos_size. pose proof (Pos.size_le m) as H.
  apply Pos2Z.pos_le_pos in H. rewrite Pos2Z.inj_pow in H. exact H.
Qed.

Lemma digits2_pos_le m k : 0 <= k -> Zpos m < 2 ^ k -> Zpos (digits2_pos m) <= k.
Proof.
  intros Hk Hm. pose proof (digits2_pos_lower m) as Hl.
  destruct (Z.le_gt_cases (Zpos (digits2_pos m)) k) as [|Hgt]; [assumption|].
  assert (2 ^ (k + 1) <= 2 ^ Zpos (digits2_pos m)) by (apply Z.pow_le_mono_r; lia).
  rewrite Z.pow_add_r in * by lia. lia.
Qed.

Lemma iter_xO_spec m k :
  digits2_pos (Pos.iter xO m k) = (digits2_pos m + k)%positive /\
  Zpos (Pos.iter xO m k) = Zpos m * 2 ^ Zpos k.
Proof.
  induction k as [|k [IH1 IH2]] using Pos.peano_ind.
  - cbn [Pos.iter digits2_pos]. split; [lia|]. lia.
  - rewrite Pos.iter_succ. cbn [digits2_pos]. rewrite IH1. split; [lia|].
    rewrite Pos2Z.inj_xO, IH2, Pos2Z.inj_succ, Z.pow_succ_r by lia. lia.
Qed.

Lemma binary_round_aux_exact s m e :
  Zpos (digits2_pos m) = 53 -> -1074 <= e <= 971 ->
  binary_round_aux prec emax s (Zpos m) e loc_Exact = S754_finite s m e.
Proof.
  intros Hd He. unfold binary_round_aux, shr_fexp, fexp, emin, prec, emax.
  cbn [Zdigits2 shr_record_of_loc]. rewrite Hd.
  replace (Z.max (53 + e - 53) (3 - 1024 - 53) - e) with 0 by lia.
  cbn [shr shr_m loc_of_shr_record round_nearest_even Zdigits2 shr_record_of_loc].
  rewrite Hd.
  replace (Z.max (53 + e - 53) (3 - 1024 - 53) - e) with 0 by lia.
  cbn [shr shr_m]. destruct (Z.leb_spec e (1024 - 53)); [reflexivity|lia].
Qed.

Lemma binary_round_small s m :
  Zpos m < 2 ^ 53 ->
  exists m' e, binary_round prec emax s m 0 = S754_finite s m' e /\
               -52 <= e <= 0 /\ Zpos m' = Zpos m * 2 ^ (- e).
Proof.
  intros Hm. pose proof (digits2_pos_le m 53 ltac:(lia) Hm) as Hd.
  assert (0 < Zpos (digits2_pos m)) by lia.
  unfold binary_round, fexp, emin, prec, emax.
  replace (Z.max (Zpos (digits2_pos m) + 0 - 53) (3 - 1024 - 53))
    with (Zpos (digits2_pos m) - 53) by lia.
  unfold shl_align.
  destruct (Zpos (digits2_pos m) - 53 - 0) as [|k|k] eqn:Hk; [|lia|].
  - exists m, 0. rewrite binary_round_aux_exact by lia.
    split; [reflexivity|]. split; [lia|]. cbn. lia.
  - destruct (iter_xO_spec m k) as [H1 H2].
    exists (Pos.iter xO m k), (Zpos (digits2_pos m) - 53).
    rewrite binary_round_aux_exact.
    + split; [reflexivity|]. split; [lia|]. rewrite H2. f_equal. f_equal. lia.
    + rewrite H1. lia.
    + lia.
Qed.

Lemma round_mag_exact n e : e <= 0 -> round_mag (n * 2 ^ (- e)) e = n.
Proof.
  intros He. destruct (Z.eq_dec e 0) as [->|Hne].
  - rewrite round_mag_shift by lia. cbn. lia.
  - destruct (round_mag_frac (n * 2 ^ (- e)) e ltac:(lia)) as [Hd ->].
    set (d := 2 ^ (- e)) in *.
    assert (Hq : (2 * (n * d) + d) / (2 * d) = n)
      by (symmetry; apply Z.div_unique with (r := d); nia).
    rewrite Hq.
    destruct (Z.eqb_spec (Z.abs (2 * (n * d) - 2 * n * d)) d) as [Ht|_]; [lia|reflexivity].
Qed.

Lemma int_round_float_small s m :
  Zpos m < 2 ^ 53 ->
  int_round_float (PInt (cond_Zopp s (Zpos m))) = Ok (cond_Zopp s (Zpos m)).
Proof.
  intros Hm. destruct (binary_round_small s m Hm) as (m' & e & Hf & He & Hv).
  unfold int_round_float. cbn [py_float]. unfold float_of_int, float_of_Z.
  assert (Hn : binary_normalize prec emax (cond_Zopp s (Zpos m)) 0 false
               = S754_finite s m' e) by (destruct s; exact Hf).
  rewrite Hn. cbn [rbind py_round]. rewrite Hv, round_mag_exact by lia. reflexivity.
Qed.

(** An integer median of magnitude up to [2 ** 53] comes back unchanged:
    the detour through [float] and [round] loses nothing. One more and it
    does: [2 ** 53 + 1] gives [2 ** 53]. *)
Theorem integer_median_exact :
  (forall section window_key n,
      last_median section window_key = Some (PInt n) ->
      Z.abs n <= 2 ^ 53 ->
      _median_from_stats_section section window_key = Ok (Some n)) /\
  int_round_float (PInt (2 ^ 53 + 1)) = Ok (2 ^ 53).
Proof.
  split; [|vm_compute; reflexivity].
  intros section window_key n Hmed Hn.
  rewrite median_from_stats_section_value. unfold stage_value. rewrite Hmed.
  cbn [is_None].
  assert (Hr : int_round_float (PInt n) = Ok n); [|rewrite Hr; reflexivity].
  destruct (Z.eq_dec (Z.abs n) (2 ^ 53)) as [He|Hne].
  - destruct (Z.abs_spec n) as [[_ Ha]|[_ Ha]]; rewrite Ha in He.
    + subst n. vm_compute. reflexivity.
    + replace n with (- 2 ^ 53) by lia. vm_compute. reflexivity.
  - destruct n as [|m|m].
    + reflexivity.
    + apply (int_round_float_small false m). lia.
    + apply (int_round_float_small true m). lia.
Qed.

Lemma integer_median_exact_witness :
  _median_from_stats_section
    (PDict [("90days", PList [PDict [("median", PInt 7)];
                              PDict [("median", PInt (-9007199254740991))]])])
    "90days"
  = Ok (Some (-9007199254740991)).
Proof.
  apply (proj1 integer_median_exact); [reflexivity|].
  vm_compute. discriminate.
Defined.

(** Only the last record of a window counts: the records before it can be
    anything. *)
Theorem median_ignores_earlier_records sd window_key earlier record :
  field sd window_key = PList (earlier ++ [record]) ->
  _median_from_stats_section (PDict sd) window_key
  = _median_from_stats_section (PDict [(window_key, PList [record])]) window_key.
Proof.
  intros Hw. rewrite !median_from_stats_section_value.
  unfold stage_value, last_median. rewrite Hw, last_snoc.
  unfold field. cbn [assoc]. rewrite String.eqb_refl. reflexivity.
Qed.

Lemma median_ignores_earlier_records_witness :
  _median_from_stats_section
    (PDict [("48hours", PList []);
            ("90days", PList [PStr "noise"; PDict [("median", PInt 1)];
                              PDict [("median", PFloat (float_lit 126 (-1)))]])])
    "90days"
  = _median_from_stats_section
      (PDict [("90days", PList [PDict [("median", PFloat (float_lit 126 (-1)))]])])
      "90days".
Proof.
  exact (median_ignores_earlier_records
           [("48hours", PList []);
            ("90days", PList [PStr "noise"; PDict [("median", PInt 1)];
                              PDict [("median", PFloat (float_lit 126 (-1)))]])]
           "90days" [PStr "noise"; PDict [("median", PInt 1)]]
           (PDict [("median", PFloat (float_lit 126 (-1)))]) eq_refl).
Defined.

(** ** Catalog *)

Lemma strip_stripped s : stripped (PyStr.strip PyStr.isspace s).
Proof.
  unfold stripped. apply strip_id; [apply strip_head|apply strip_last].
Qed.

Lemma or_empty_strip_stripped v s : or_empty_strip v = Ok s -> stripped s.
Proof.
  unfold or_empty_strip. destruct (py_or v (PStr "")); try discriminate.
  intros [= <-]. apply strip_stripped.
Qed.

Lemma stripped_ends s :
  stripped s ->
  match s with String c _ => PyStr.isspace c = false | EmptyString => True end /\
  match String.rev s with String c _ => PyStr.isspace c = false | EmptyString => True end.
Proof.
  intros H. split.
  - pose proof (strip_head PyStr.isspace s) as Hh. rewrite H in Hh. exact Hh.
  - pose proof (strip_last PyStr.isspace s) as Hl. rewrite H in Hl. exact Hl.
Qed.

Lemma full_name_plain tier code :
  stripped tier -> stripped code -> tier <> "" -> code <> "" ->
  full_name_of tier code = tier +:+ " " +:+ code.
Proof.
  intros Ht Hc Htn Hcn. unfold full_name_of. apply strip_id.
  - destruct (stripped_ends tier Ht) as [Hh _].
    destruct tier as [|c r]; [contradiction|]. exact Hh.
  - destruct (stripped_ends code Hc) as [_ Hl].
    rewrite !rev_app_distr.
    destruct (String.rev code) as [|c r] eqn:E.
    + apply (proj1 (rev_empty code)) in E. contradiction.
    + rewrite !str_app_cons. exact Hl.
Qed.

Lemma parse_reward_ok rw r : parse_reward rw = Ok (Some r) -> reward_ok r.
Proof.
  unfold parse_reward. destruct rw as [| | | | | |d]; try discriminate.
  destruct (or_empty_strip (py_or _ (field d "name"))) as [it|] eqn:Hit;
    cbn [rbind]; [|discriminate].
  destruct (String.eqb_spec it "") as [|Hne]; [discriminate|].
  destruct (or_empty_strip (py_or (field d "rarity") _)) as [ty|] eqn:Hty;
    cbn [rbind]; [|discriminate].
  intros [= <-]. unfold reward_ok. cbn.
  eauto using or_empty_strip_stripped.
Qed.

Lemma parse_rewards_ok l : forall rs, parse_rewards l = Ok rs -> Forall reward_ok rs.
Proof.
  induction l as [|rw l IH]; intros rs; cbn [parse_rewards].
  - intros [= <-]. constructor.
  - destruct (parse_reward rw) as [r|] eqn:Hr; cbn [rbind]; [|discriminate].
    destruct (parse_rewards l) as [rs'|]; cbn [rbind]; [|discriminate].
    intros [= <-]. destruct r as [r|]; [|auto].
    constructor; [eapply parse_reward_ok; eassumption|auto].
Qed.

(** What the loop over the relics keeps true of [out] and [seen]. *)
Lemma parse_relic_invariant vault_map out seen r out' seen' :
  parse_relic vault_map (out, seen) r = Ok (out', seen') ->
  Forall (relic_ok vault_map) out ->
  NoDup (relic_full_name <$> out) ->
  (forall x, x ∈ out -> relic_full_name x ∈ seen) ->
  Forall (relic_ok vault_map) out' /\
  NoDup (relic_full_name <$> out') /\
  (forall x, x ∈ out' -> relic_full_name x ∈ seen') /\
  out `prefix_of` out'.
Proof.
  intros H Hok Hnd Hseen.
  assert (Hsame : (out', seen') = (out, seen) ->
                  Forall (relic_ok vault_map) out' /\
                  NoDup (relic_full_name <$> out') /\
                  (forall x, x ∈ out' -> relic_full_name x ∈ seen') /\
                  out `prefix_of` out')
    by (intros [= -> ->]; auto).
  assert (Hgrow : forall fn, (out', seen') = (out, {[fn]} ∪ seen) ->
                  Forall (relic_ok vault_map) out' /\
                  NoDup (relic_full_name <$> out') /\
                  (forall x, x ∈ out' -> relic_full_name x ∈ seen') /\
                  out `prefix_of` out').
  { intros fn [= -> ->]. repeat split; auto. intros x Hx. set_solver. }
  unfold parse_relic in H. destruct r as [| | | | | |d]; try (injection H as <- <-; auto).
  destruct (or_empty_strip (field d "state")) as [state|]; cbn [rbind] in H; [|discriminate].
  destruct (negb (state =? "Intact")%string); [injection H as <- <-; auto|].
  destruct (or_empty_strip (field d "tier")) as [t|] eqn:Ht; cbn [rbind] in H; [|discriminate].
  destruct (or_empty_strip (field d "relicName")) as [c|] eqn:Hc;
    cbn [rbind] in H; [|discriminate].
  destruct (String.eqb_spec t "") as [|Htn]; [injection H as <- <-; auto|].
  destruct (String.eqb_spec c "") as [|Hcn]; [injection H as <- <-; auto|].
  cbn [orb] in H.
  apply or_empty_strip_stripped in Ht, Hc.
  rewrite (full_name_plain t c Ht Hc Htn Hcn) in H.
  destruct (bool_decide_reflect (t +:+ " " +:+ c ∈ seen)) as [|Hfresh];
    [injection H as <- <-; auto|].
  destruct (negb (isinstance_list _) || negb (truthy _));
    [injection H as <- <-; eapply Hgrow; reflexivity|].
  destruct (py_or (field d "rewards") (PList [])) as [| | | | |l|];
    try (injection H as <- <-; eapply Hgrow; reflexivity).
  destruct (parse_rewards l) as [rs|] eqn:Hrs; cbn [rbind] in H; [|discriminate].
  destruct rs as [|rw rs]; [injection H as <- <-; eapply Hgrow; reflexivity|].
  injection H as <- <-.
  set (new := mkRelic t c (default true (vault_map !! (t +:+ " " +:+ c))) (rw :: rs)).
  assert (Hnew : relic_full_name new = t +:+ " " +:+ c) by reflexivity.
  split; [|split; [|split]].
  - apply Forall_app. split; [assumption|]. constructor; [|constructor].
    apply parse_rewards_ok in Hrs.
    unfold relic_ok. cbn [tier name vaulted rewards new].
    split; [assumption|]. split; [assumption|]. split; [assumption|].
    split; [assumption|]. split; [discriminate|]. split; [assumption|reflexivity].
  - rewrite fmap_app. apply NoDup_app. split; [assumption|]. split.
    + intros x Hx Hx'. cbn in Hx'. apply list_elem_of_singleton in Hx'. subst x.
      apply list_elem_of_fmap in Hx as (y & Hy & Hin). apply Hfresh.
      rewrite <- Hnew, Hy. apply Hseen. assumption.
    + cbn. apply NoDup_singleton.
  - intros x [Hx|Hx]%elem_of_app.
    + apply elem_of_union_r. auto.
    + apply list_elem_of_singleton in Hx. subst x. rewrite Hnew. set_solver.
  - apply prefix_app_r. reflexivity.
Qed.

Lemma parse_relics_invariant vault_map relics :
  forall out seen out' seen',
    parse_relics vault_map relics (out, seen) = Ok (out', seen') ->
    Forall (relic_ok vault_map) out ->
    NoDup (relic_full_name <$> out) ->
    (forall x, x ∈ out -> relic_full_name x ∈ seen) ->
    Forall (relic_ok vault_map) out' /\
    NoDup (relic_full_name <$> out') /\
    out `prefix_of` out'.
Proof.
  induction relics as [|r relics IH]; intros out seen out' seen'; cbn [parse_relics].
  - intros [= <- <-]. auto.
  - destruct (parse_relic vault_map (out, seen) r) as [[out1 seen1]|] eqn:H1;
      cbn [rbind]; [|discriminate].
    intros H Hok Hnd Hseen.
    destruct (parse_relic_invariant _ _ _ _ _ _ H1 Hok Hnd Hseen) as (Hok1 & Hnd1 & Hs1 & Hp1).
    destruct (IH _ _ _ _ H Hok1 Hnd1 Hs1) as (Hok' & Hnd' & Hp').
    repeat split; auto. etrans; eassumption.
Qed.

Lemma key_le_total a b : key_le a b = false -> key_le b a = true.
Proof.
  unfold key_le. destruct a as [a1 a2], b as [b1 b2]. cbn [fst snd].
  destruct (Z.ltb_spec a1 b1); [discriminate|].
  destruct (Z.eqb_spec a1 b1) as [->|Hne]; cbn [orb andb].
  - intros Hl. rewrite Z.ltb_irrefl, Z.eqb_refl. cbn.
    destruct (String.leb_total a2 b2) as [H'|H']; [congruence|assumption].
  - intros _. destruct (Z.ltb_spec b1 a1); [reflexivity|lia].
Qed.

Lemma key_le_trans a b c : key_le a b = true -> key_le b c = true -> key_le a c = true.
Proof.
  unfold key_le. destruct a as [a1 a2], b as [b1 b2], c as [c1 c2]. cbn [fst snd].
  intros [H1|[H1 H1']%andb_true_iff]%orb_true_iff [H2|[H2 H2']%andb_true_iff]%orb_true_iff;
    apply orb_true_iff;
    repeat match goal with
           | H : (_ <? _) = true |- _ => apply Z.ltb_lt in H
           | H : (_ =? _) = true |- _ => apply Z.eqb_eq in H
           end.
  - left. apply Z.ltb_lt. lia.
  - left. apply Z.ltb_lt. lia.
  - left. apply Z.ltb_lt. lia.
  - right. apply andb_true_iff. split; [apply Z.eqb_eq; lia|].
    apply Is_true_true. apply Is_true_true in H1', H2'.
    exact (transitivity (R := String.le) H1' H2').
Qed.

Lemma insert_by_key_Permutation x l : insert_by_key x l ≡ₚ x :: l.
Proof.
  induction l as [|y l IH]; cbn [insert_by_key]; [reflexivity|].
  destruct (key_le (sort_key x) (sort_key y)); [reflexivity|].
  rewrite IH. apply Permutation_swap.
Qed.

Lemma sort_by_key_Permutation l : sort_by_key l ≡ₚ l.
Proof.
  induction l as [|x l IH]; [reflexivity|].
  cbn [sort_by_key foldr]. rewrite insert_by_key_Permutation. f_equiv. exact IH.
Qed.

Lemma insert_by_key_sorted x l :
  StronglySorted relic_le l -> StronglySorted relic_le (insert_by_key x l).
Proof.
  induction 1 as [|y l Hs IH Hy]; cbn [insert_by_key]; [repeat constructor|].
  destruct (key_le (sort_key x) (sort_key y)) eqn:Hxy.
  - constructor; [constructor; assumption|].
    constructor; [exact Hxy|].
    eapply Forall_impl; [exact Hy|]. intros z Hz. unfold relic_le in *.
    eapply key_le_trans; eassumption.
  - constructor; [assumption|].
    rewrite insert_by_key_Permutation. constructor; [|assumption].
    apply key_le_total. assumption.
Qed.

Lemma sort_by_key_sorted l : StronglySorted relic_le (sort_by_key l).
Proof.
  induction l as [|x l IH]; [constructor|].
  cbn [sort_by_key foldr]. apply insert_by_key_sorted. exact IH.
Qed.

(** Stability: among the relics with one and the same key, the sort keeps
    the order they had. *)
Lemma insert_by_key_filter (P : relic -> Prop) `{!forall r, Decision (P r)} x l :
  (forall y, P x -> P y -> key_le (sort_key x) (sort_key y) = true) ->
  filter P (insert_by_key x l) = filter P (x :: l).
Proof.
  intros Hk. induction l as [|y l IH]; cbn [insert_by_key]; [reflexivity|].
  destruct (key_le (sort_key x) (sort_key y)) eqn:Hxy; [reflexivity|].
  rewrite filter_cons, IH, !filter_cons.
  destruct (decide (P y)) as [Hy|]; [|reflexivity].
  destruct (decide (P x)) as [Hx|]; [|reflexivity].
  rewrite (Hk y Hx Hy) in Hxy. discriminate.
Qed.

(** The sort is stable: the relics with one and the same key keep the order
    they had. *)
Lemma sort_by_key_stable l k :
  filter (fun r => sort_key r = k) (sort_by_key l) = filter (fun r => sort_key r = k) l.
Proof.
  induction l as [|x l IH]; [reflexivity|].
  cbn [sort_by_key foldr]. rewrite insert_by_key_filter.
  - rewrite !filter_cons. fold (sort_by_key l). rewrite IH. reflexivity.
  - intros y -> <-. unfold key_le. rewrite Z.eqb_refl.
    replace (String.leb (sort_key y).2 (sort_key y).2) with true;
      [apply orb_true_r|].
    symmetry. apply Is_true_true. exact (reflexivity (R := String.le) _).
Qed.

(** What [build_relics_min] returns, when it returns: after exactly the two
    fetches, a non-empty list of relics with non-empty stripped tier and
    code, each with at least one reward whose item name is non-empty and
    stripped; no two relics have the same "tier code" name; the vaulted flag
    is the one of the vault map, and True when the map has none; the list is
    in the order of [sort_key] (Lith, Meso, Neo, Axi, then the rest, each by
    code); and every item name of it is an item to price. *)
Theorem build_relics_min_output w out w' :
  build_relics_min w = (Ok out, w') ->
  exists payload w1 vault_map,
    http_json RELICS_ALL_URL default_attempts w = (Ok payload, w1) /\
    build_vaulted_map w1 = (Ok vault_map, w') /\
    out <> [] /\
    Forall (relic_ok vault_map) out /\
    NoDup (relic_full_name <$> out) /\
    StronglySorted relic_le out /\
    forall r rw, r ∈ out -> rw ∈ rewards r -> item rw ∈ unique_reward_items out.
Proof.
  unfold build_relics_min.
  destruct (http_json RELICS_ALL_URL default_attempts w) as [[payload|e] w1] eqn:Hfetch;
    [|discriminate].
  destruct (relics_field payload) as [relics|]; [|discriminate].
  destruct (build_vaulted_map w1) as [[vault_map|e] w2] eqn:Hvault; [|discriminate].
  destruct (parse_relics vault_map relics ([], ∅)) as [[out0 seen]|e] eqn:Hparse;
    [|discriminate].
  destruct (sort_by_key out0) as [|r0 rest] eqn:Hsort; [discriminate|].
  intros [= <- <-]. exists payload, w1, vault_map.
  destruct (parse_relics_invariant _ _ _ _ _ _ Hparse) as (Hok & Hnd & _).
  { constructor. }
  { constructor. }
  { intros x Hx. destruct (not_elem_of_nil x Hx). }
  assert (Hperm : r0 :: rest ≡ₚ out0) by (rewrite <- Hsort; apply sort_by_key_Permutation).
  assert (Hok' : Forall (relic_ok vault_map) (r0 :: rest)) by (rewrite Hperm; assumption).
  split; [reflexivity|]. split; [assumption|]. split; [discriminate|].
  split; [assumption|]. split; [rewrite Hperm; assumption|].
  split; [rewrite <- Hsort; apply sort_by_key_sorted|].
  intros r rw Hr Hrw. apply unique_reward_items_spec. split.
  - apply (proj1 (Forall_forall _ _) Hok') in Hr. destruct Hr as (_ & _ & _ & _ & _ & Hrws & _).
    apply (proj1 (Forall_forall _ _) Hrws) in Hrw. apply Hrw.
  - exists r, rw. auto.
Qed.

Lemma build_relics_min_output_witness :
  let w := scripted [Returns sample_relics_doc; Returns sample_vault_doc]
                    (Fails TimeoutError) in
  fst (build_relics_min w) =
  Ok [mkRelic "Lith" "B2" false [mkReward "Forma Blueprint" None "Uncommon"];
      mkRelic "Axi" "A1" true
        [mkReward "Soma Prime Receiver" (Some (float_lit 2533 (-2))) "Uncommon"]] /\
  sent (snd (build_relics_min w)) = 2%nat /\
  NoDup (relic_full_name <$>
           [mkRelic "Lith" "B2" false [mkReward "Forma Blueprint" None "Uncommon"];
            mkRelic "Axi" "A1" true
              [mkReward "Soma Prime Receiver" (Some (float_lit 2533 (-2))) "Uncommon"]]).
Proof.
  intros w.
  assert (H : fst (build_relics_min w) =
              Ok [mkRelic "Lith" "B2" false [mkReward "Forma Blueprint" None "Uncommon"];
                  mkRelic "Axi" "A1" true
                    [mkReward "Soma Prime Receiver" (Some (float_lit 2533 (-2)))
                       "Uncommon"]])
    by (vm_compute; reflexivity).
  split; [exact H|]. split; [vm_compute; reflexivity|].
  destruct (build_relics_min w) as [r w'] eqn:E. cbn [fst] in H. subst r.
  destruct (build_relics_min_output w _ w' E) as (_ & _ & _ & _ & _ & _ & _ & Hnd & _).
  exact Hnd.
Defined.

Lemma http_json_answered url w document :
  net w (sent w) url = Returns document ->
  http_json url default_attempts w =
  (Ok document, mkWorld (net w) (S (sent w)) (trace w ++ [Request url])).
Proof.
  intros H. unfold http_json. change (range default_attempts) with ([] ++ 0 :: [1; 2; 3])%list.
  rewrite (http_json_loop_success url [] [] 0 [1; 2; 3] None w document eq_refl).
  - cbn. rewrite Nat.add_0_r. reflexivity.
  - intros k e Hk. discriminate.
  - cbn. rewrite Nat.add_0_r. assumption.
Qed.

(** [build_vaulted_map] never raises: when the fetch fails, whatever the
    error, and when the document is not a list, the map is empty. *)
Theorem build_vaulted_map_never_raises w :
  exists m,
    fst (build_vaulted_map w) = Ok m /\
    snd (build_vaulted_map w) = snd (http_json RELICS_VAULT_MAP_URL default_attempts w) /\
    (forall e, fst (http_json RELICS_VAULT_MAP_URL default_attempts w) = Raise e -> m = ∅) /\
    (forall payload,
        fst (http_json RELICS_VAULT_MAP_URL default_attempts w) = Ok payload ->
        m = vault_map_of payload /\ (isinstance_list payload = false -> m = ∅)).
Proof.
  unfold build_vaulted_map.
  destruct (http_json RELICS_VAULT_MAP_URL default_attempts w) as [[payload|e] w1];
    cbn [fst snd].
  - exists (vault_map_of payload).
    split; [reflexivity|]. split; [reflexivity|]. split; [discriminate|].
    intros p [= <-]. split; [reflexivity|].
    intros Hl. destruct payload; try reflexivity. discriminate.
  - exists ∅.
    split; [reflexivity|]. split; [reflexivity|]. split; [reflexivity|discriminate].
Qed.

Lemma build_vaulted_map_never_raises_witness :
  fst (build_vaulted_map (scripted [] (Fails (HTTPError 404)))) = Ok ∅ /\
  fst (build_vaulted_map (scripted [Returns (PDict [])] (Fails TimeoutError))) = Ok ∅.
Proof.
  split.
  - destruct (build_vaulted_map_never_raises (scripted [] (Fails (HTTPError 404))))
      as (m & Hm & _ & He & _).
    rewrite Hm. f_equal. apply (He (HTTPError 404)). reflexivity.
  - destruct (build_vaulted_map_never_raises
                (scripted [Returns (PDict [])] (Fails TimeoutError)))
      as (m & Hm & _ & _ & Hp).
    rewrite Hm. f_equal. apply (Hp (PDict [])); reflexivity.
Defined.

Lemma vault_entry_keys m r :
  (forall k b, m !! k = Some b -> k <> "" /\ stripped k) ->
  forall k b, vault_entry m r !! k = Some b -> k <> "" /\ stripped k.
Proof.
  intros Hm k b. unfold vault_entry.
  destruct r as [| | | | | |d]; try apply Hm.
  destruct (field d "name") as [| | | |n| |]; try apply Hm.
  destruct (field d "vaulted") as [|v| | | | |]; try apply Hm.
  destruct (String.eqb_spec (PyStr.strip PyStr.isspace n) "") as [|Hne]; cbn [negb];
    [apply Hm|].
  destruct (decide (PyStr.strip PyStr.isspace n = k)) as [<-|Hk].
  - intros _. split; [assumption|apply strip_stripped].
  - rewrite lookup_insert_ne by assumption. apply Hm.
Qed.

Lemma vault_fold_keys l :
  forall m,
    (forall k b, m !! k = Some b -> k <> "" /\ stripped k) ->
    forall k b, foldl vault_entry m l !! k = Some b -> k <> "" /\ stripped k.
Proof.
  induction l as [|r l IH]; intros m Hm; cbn [foldl]; [assumption|].
  apply IH. apply vault_entry_keys. assumption.
Qed.

(** The keys of the vault map are relic names without surrounding white
    space, never empty; and of two entries for one name the later one
    counts. *)
Theorem vault_map_entries :
  (forall payload k b,
      vault_map_of payload !! k = Some b -> k <> "" /\ stripped k) /\
  (forall earlier name vaulted others,
      PyStr.strip PyStr.isspace name <> "" ->
      vault_map_of
        (PList (earlier ++ [PDict (("name", PStr name) :: ("vaulted", PBool vaulted)
                                   :: others)]))
      !! PyStr.strip PyStr.isspace name = Some vaulted).
Proof.
  split.
  - intros payload k b. unfold vault_map_of.
    destruct payload as [| | | | |l|]; try (rewrite lookup_empty; discriminate).
    apply vault_fold_keys. intros k' b'. rewrite lookup_empty. discriminate.
  - intros earlier n v others Hne. unfold vault_map_of.
    rewrite foldl_app. cbn [foldl]. unfold vault_entry at 1.
    change (field (("name", PStr n) :: ("vaulted", PBool v) :: others) "name")
      with (PStr n).
    change (field (("name", PStr n) :: ("vaulted", PBool v) :: others) "vaulted")
      with (PBool v).
    cbn match. rewrite (proj2 (String.eqb_neq _ _) Hne). cbn [negb].
    apply lookup_insert_eq.
Qed.

Lemma vault_map_entries_witness :
  vault_map_of
    (PList [PDict [("name", PStr "Axi A1"); ("vaulted", PBool true)];
            PDict [("name", PStr " Axi A1 "); ("vaulted", PBool false)]])
  !! "Axi A1" = Some false.
Proof.
  exact (proj2 vault_map_entries
           [PDict [("name", PStr "Axi A1"); ("vaulted", PBool true)]]
           " Axi A1 " false [] ltac:(vm_compute; discriminate)).
Defined.

(** A catalog document that is not a dict with a list under ["relics"]
    ends [build_relics_min] with the "Unexpected format" error right after
    the first fetch: the vault map is not even requested. *)
Theorem build_relics_min_bad_format w payload :
  net w (sent w) RELICS_ALL_URL = Returns payload ->
  relics_field payload = None ->
  build_relics_min w =
  (Raise unexpected_format,
   mkWorld (net w) (S (sent w)) (trace w ++ [Request RELICS_ALL_URL])).
Proof.
  intros Hnet Hf. unfold build_relics_min.
  rewrite (http_json_answered _ w payload Hnet), Hf. reflexivity.
Qed.

Lemma build_relics_min_bad_format_witness :
  let w := scripted [Returns (PDict [("relics", PDict [])])] (Returns (PList [])) in
  build_relics_min w =
  (Raise unexpected_format, mkWorld (net w) 1 [Request RELICS_ALL_URL]).
Proof.
  intros w.
  exact (build_relics_min_bad_format w (PDict [("relics", PDict [])]) eq_refl eq_refl).
Defined.

Lemma parse_relics_app vault_map l1 l2 st :
  parse_relics vault_map (l1 ++ l2) st =
  (st' <- parse_relics vault_map l1 st ;; parse_relics vault_map l2 st')%result.
Proof.
  revert st. induction l1 as [|r l1 IH]; intros st; [reflexivity|].
  cbn [app parse_relics]. destruct (parse_relic vault_map st r); cbn [rbind]; auto.
Qed.

Lemma parse_relic_not_intact vault_map st r :
  not_intact r -> parse_relic vault_map st r = Ok st.
Proof.
  destruct st as [out seen]. unfold not_intact, parse_relic.
  destruct r as [| | | | | |d]; try reflexivity.
  intros (state & -> & Hne). cbn [rbind].
  rewrite (proj2 (String.eqb_neq _ _) Hne). reflexivity.
Qed.

(** Entries that are not dicts, and entries whose state is not "Intact"
    (the Exceptional, Flawless and Radiant copies), change nothing: the
    result is the same as without them. *)
Theorem non_intact_entries_ignored vault_map before r after st :
  not_intact r ->
  parse_relics vault_map (before ++ r :: after) st
  = parse_relics vault_map (before ++ after) st.
Proof.
  intros Hr. rewrite !parse_relics_app.
  destruct (parse_relics vault_map before st) as [st'|]; cbn [rbind]; [|reflexivity].
  cbn [parse_relics]. rewrite (parse_relic_not_intact _ _ _ Hr). reflexivity.
Qed.

Lemma non_intact_entries_ignored_witness :
  parse_relics ∅
    [relic_entry "Intact" "Axi" "A1" (PList [reward_entry "Forma Blueprint" PNone]);
     relic_entry "Radiant" "Axi" "A1" (PList [reward_entry "Forma Blueprint" PNone]);
     PInt 5]
    ([], ∅)
  = parse_relics ∅
      [relic_entry "Intact" "Axi" "A1" (PList [reward_entry "Forma Blueprint" PNone]);
       PInt 5]
      ([], ∅).
Proof.
  apply (non_intact_entries_ignored ∅
           [relic_entry "Intact" "Axi" "A1" (PList [reward_entry "Forma Blueprint" PNone])]
           (relic_entry "Radiant" "Axi" "A1" (PList [reward_entry "Forma Blueprint" PNone]))
           [PInt 5] ([], ∅)).
  exists "Radiant". split; [reflexivity|discriminate].
Defined.

Lemma parse_relic_seen vault_map out seen r out' seen' :
  parse_relic vault_map (out, seen) r = Ok (out', seen') -> seen ⊆ seen'.
Proof.
  unfold parse_relic. destruct r as [| | | | | |d]; try (intros [= <- <-]; reflexivity).
  destruct (or_empty_strip (field d "state")) as [state|]; cbn [rbind]; [|discriminate].
  destruct (negb (state =? "Intact")%string); [intros [= <- <-]; reflexivity|].
  destruct (or_empty_strip (field d "tier")) as [t|]; cbn [rbind]; [|discriminate].
  destruct (or_empty_strip (field d "relicName")) as [c|]; cbn [rbind]; [|discriminate].
  destruct ((t =? "")%string || (c =? "")%string); [intros [= <- <-]; reflexivity|].
  destruct (bool_decide _); [intros [= <- <-]; reflexivity|].
  destruct (negb (isinstance_list _) || negb (truthy _));
    [intros [= <- <-]; apply union_subseteq_r|].
  destruct (py_or (field d "rewards") (PList []));
    try (intros [= <- <-]; apply union_subseteq_r).
  destruct (parse_rewards l) as [[|rw rs]|]; cbn [rbind]; [| |discriminate];
    intros [= <- <-]; apply union_subseteq_r.
Qed.

Lemma parse_relics_seen vault_map relics :
  forall out seen out' seen',
    parse_relics vault_map relics (out, seen) = Ok (out', seen') -> seen ⊆ seen'.
Proof.
  induction relics as [|r relics IH]; intros out seen out' seen'; cbn [parse_relics].
  - intros [= <- <-]. reflexivity.
  - destruct (parse_relic vault_map (out, seen) r) as [[out1 seen1]|] eqn:H1;
      cbn [rbind]; [|discriminate].
    intros H. apply parse_relic_seen in H1. apply IH in H. set_solver.
Qed.

Lemma parse_relic_marks vault_map out seen d tier code out' seen' :
  intact_entry d tier code ->
  parse_relic vault_map (out, seen) (PDict d) = Ok (out', seen') ->
  full_name_of tier code ∈ seen'.
Proof.
  intros (Hs & Ht & Hc & Htn & Hcn). unfold parse_relic.
  rewrite Hs, Ht, Hc. cbn [rbind]. cbn [String.eqb Ascii.eqb Bool.eqb negb].
  rewrite (proj2 (String.eqb_neq _ _) Htn), (proj2 (String.eqb_neq _ _) Hcn). cbn [orb].
  destruct (bool_decide_reflect (full_name_of tier code ∈ seen));
    [intros [= <- <-]; assumption|].
  destruct (negb (isinstance_list _) || negb (truthy _));
    [intros [= <- <-]; set_solver|].
  destruct (py_or (field d "rewards") (PList []));
    try (intros [= <- <-]; set_solver).
  destruct (parse_rewards l) as [[|rw rs]|]; cbn [rbind]; [| |discriminate];
    intros [= <- <-]; set_solver.
Qed.

Lemma parse_relic_duplicate vault_map out seen d tier code :
  intact_entry d tier code ->
  full_name_of tier code ∈ seen ->
  parse_relic vault_map (out, seen) (PDict d) = Ok (out, seen).
Proof.
  intros (Hs & Ht & Hc & Htn & Hcn) Hin. unfold parse_relic.
  rewrite Hs, Ht, Hc. cbn [rbind]. cbn [String.eqb Ascii.eqb Bool.eqb negb].
  rewrite (proj2 (String.eqb_neq _ _) Htn), (proj2 (String.eqb_neq _ _) Hcn). cbn [orb].
  rewrite (bool_decide_eq_true_2 _ Hin). reflexivity.
Qed.

(** Of two Intact entries for one relic only the first counts, even when
    the first has no usable reward and so yields no relic itself: the
    result is the same as without the second. *)
Theorem later_duplicate_ignored vault_map d1 between d2 after st tier code :
  intact_entry d1 tier code ->
  intact_entry d2 tier code ->
  parse_relics vault_map (PDict d1 :: between ++ PDict d2 :: after) st
  = parse_relics vault_map (PDict d1 :: between ++ after) st.
Proof.
  intros H1 H2. destruct st as [out seen]. cbn [parse_relics].
  destruct (parse_relic vault_map (out, seen) (PDict d1)) as [[out1 seen1]|] eqn:E1;
    cbn [rbind]; [|reflexivity].
  rewrite !parse_relics_app.
  destruct (parse_relics vault_map between (out1, seen1)) as [[out2 seen2]|] eqn:E2;
    cbn [rbind]; [|reflexivity].
  cbn [parse_relics]. rewrite (parse_relic_duplicate _ _ _ _ _ _ H2); [reflexivity|].
  apply (parse_relics_seen _ _ _ _ _ _ E2).
  apply (parse_relic_marks _ _ _ _ _ _ _ _ H1 E1).
Qed.

Lemma later_duplicate_ignored_witness :
  parse_relics ∅
    [relic_entry "Intact" "Meso" "C3" (PList []);
     relic_entry "Intact" "Meso" " C3" (PList [reward_entry "Forma Blueprint" PNone])]
    ([], ∅)
  = Ok ([], {["Meso C3"]}).
Proof.
  refine (eq_trans
            (later_duplicate_ignored ∅
               [("tier", PStr "Meso"); ("relicName", PStr "C3"); ("state", PStr "Intact");
                ("rewards", PList [])]
               []
               [("tier", PStr "Meso"); ("relicName", PStr " C3"); ("state", PStr "Intact");
                ("rewards", PList [reward_entry "Forma Blueprint" PNone])]
               [] ([], ∅) "Meso" "C3" _ _) _).
  - repeat split; discriminate.
  - repeat split; discriminate.
  - reflexivity.
Defined.

Lemma build_vaulted_map_ok w : exists m w', build_vaulted_map w = (Ok m, w').
Proof.
  unfold build_vaulted_map.
  destruct (http_json RELICS_VAULT_MAP_URL default_attempts w) as [[payload|e] w1]; eauto.
Qed.

(** A state that is neither a string nor empty (a number, [true], a
    non-empty list) is not passed over: calling [strip] on it raises
    [AttributeError], which ends [build_relics_min]. *)
Theorem non_string_state_raises w payload d rest :
  net w (sent w) RELICS_ALL_URL = Returns payload ->
  relics_field payload = Some (PDict d :: rest) ->
  truthy (field d "state") = true ->
  (forall s, field d "state" <> PStr s) ->
  (forall vault_map st, parse_relics vault_map (PDict d :: rest) st = Raise AttributeError) /\
  fst (build_relics_min w) = Raise AttributeError.
Proof.
  intros Hnet Hf Ht Hs.
  assert (Hp : forall vault_map st,
             parse_relics vault_map (PDict d :: rest) st = Raise AttributeError).
  { intros vault_map [out seen]. cbn [parse_relics parse_relic].
    unfold or_empty_strip, py_or. rewrite Ht.
    destruct (field d "state"); try reflexivity. destruct (Hs s eq_refl). }
  split; [assumption|].
  unfold build_relics_min. rewrite (http_json_answered _ w payload Hnet), Hf.
  destruct (build_vaulted_map_ok
              (mkWorld (net w) (S (sent w)) (trace w ++ [Request RELICS_ALL_URL])))
    as (m & w' & ->).
  rewrite Hp. reflexivity.
Qed.

Lemma non_string_state_raises_witness :
  fst (build_relics_min
         (scripted [Returns (PDict [("relics", PList [PDict [("state", PInt 5)]])])]
                   (Returns (PList []))))
  = Raise AttributeError.
Proof.
  apply (non_string_state_raises _ (PDict [("relics", PList [PDict [("state", PInt 5)]])])
           [("state", PInt 5)] []); try reflexivity.
  intros s. discriminate.
Defined.

(** The sort of the relic list does what [list.sort(key=...)] promises: the
    result holds the same relics, is in the order of the keys, and relics
    with equal keys keep the order they had. *)
Theorem relic_sort_contract l :
  sort_by_key l ≡ₚ l /\
  StronglySorted relic_le (sort_by_key l) /\
  forall k, filter (fun r => sort_key r = k) (sort_by_key l)
            = filter (fun r => sort_key r = k) l.
Proof.
  split; [apply sort_by_key_Permutation|].
  split; [apply sort_by_key_sorted|].
  intros k. apply sort_by_key_stable.
Qed.
